(** * Edit-history and batch-operation orchestration of the photo editor

    A shallow embedding of the state handled by the [App] component of
    [src/App.tsx]: the image collection with its per-image undo/redo
    history, the active image, the selection set, the pending preview, and
    the handlers that move this state.

    Conventions of the embedding.
    - A React state variable is a field of [AppState]; a handler is a
      function on [AppState].  A functional update [setX (cur => ...)] and
      a plain [setX v] are both field updates: a handler invoked by a user
      event reads the state of the latest render.
    - An [async] handler is split at its [await]: the part before it
      returns the state together with the calls it issues, the part after
      it takes the values captured by the closure, the settled outcome, and
      the state it resumes in (which other handlers may have changed in
      between).
    - JavaScript strings are modelled by [string], a sequence of 8-bit
      characters (code units below 256).  Numbers that only ever hold
      integers ([historyIndex]) are [Z]. *)

From Stdlib Require Import ZArith Lia Ascii.
From stdpp Require Import base option list strings gmap pretty.

Local Open Scope Z_scope.

(** ** JavaScript primitives used by the component *)

Module JS.

(** Truthiness of a string: only the empty string is falsy. *)
Definition truthy (s : string) : bool :=
  match s with
  | EmptyString => false
  | String _ _ => true
  end.

(** Truthiness of a value of type [string | null]. *)
Definition truthy_opt (o : option string) : bool :=
  match o with
  | None => false
  | Some s => truthy s
  end.

(** [arr[i]] for a number [i] holding an integer: [undefined] (here
    [None]) out of range. *)
Definition index {A} (arr : list A) (i : Z) : option A :=
  if i <? 0 then None else arr !! Z.to_nat i.

(** [arr.slice(0, e)]: a negative [e] counts from the end, and the bound
    is clamped to the length. *)
Definition slice0 {A} (arr : list A) (e : Z) : list A :=
  let len := Z.of_nat (length arr) in
  let k := if e <? 0 then Z.max (len + e) 0 else Z.min e len in
  take (Z.to_nat k) arr.

(** [arr.join(sep)] on an array of strings. *)
Fixpoint join (sep : string) (arr : list string) : string :=
  match arr with
  | [] => ""
  | [s] => s
  | s :: rest => s +:+ sep +:+ join sep rest
  end.

(** White space and line terminators removed by [String.prototype.trim],
    among the code units below 256: TAB, LF, VT, FF, CR, SP and NBSP. *)
Definition is_trim_space (c : ascii) : bool :=
  let n := nat_of_ascii c in
  ((9 <=? n)%nat && (n <=? 13)%nat) || (n =? 32)%nat || (n =? 160)%nat.

Fixpoint trim_start (s : string) : string :=
  match s with
  | EmptyString => EmptyString
  | String c r => if is_trim_space c then trim_start r else s
  end.

(** [trim_end] keeps a character when it is not a space or when
    something survives after it. *)
Fixpoint trim_end (s : string) : string :=
  match s with
  | EmptyString => EmptyString
  | String c r =>
      match trim_end r with
      | EmptyString => if is_trim_space c then EmptyString else String c EmptyString
      | r' => String c r'
      end
  end.

Definition trim (s : string) : string := trim_end (trim_start s).

(** [s.split(',')]: the pieces between the separators; never empty. *)
Fixpoint split_on (sep : ascii) (s : string) : list string :=
  match s with
  | EmptyString => [EmptyString]
  | String c r =>
      if decide (c = sep) then EmptyString :: split_on sep r
      else match split_on sep r with
           | [] => [String c EmptyString]
           | p :: ps => String c p :: ps
           end
  end.

(** Line terminators, which the regular expression dot does not match
    (LF and CR among the code units below 256). *)
Definition is_line_terminator (c : ascii) : bool :=
  let n := nat_of_ascii c in (n =? 10)%nat || (n =? 13)%nat.

(** The lazy group followed by a semicolon, [(.*?);], matched at the
    start of [s]: the text up to the first semicolon, provided no line
    terminator comes before it. *)
Fixpoint lazy_group_semicolon (s : string) : option string :=
  match s with
  | EmptyString => None
  | String c r =>
      if decide (c = ";"%char) then Some EmptyString
      else if is_line_terminator c then None
      else String c <$> lazy_group_semicolon r
  end.

(** Capture group 1 of [s.match(/:(.*?);/)], [None] when there is no
    match: the leftmost colon from which the rest of the pattern
    matches. *)
Fixpoint match_colon_group (s : string) : option string :=
  match s with
  | EmptyString => None
  | String c r =>
      if decide (c = ":"%char) then
        match lazy_group_semicolon r with
        | Some g => Some g
        | None => match_colon_group r
        end
      else match_colon_group r
  end.

(** A thrown value: an [Error] object with its message, or anything
    else. *)
Inductive Thrown :=
| ErrorObject (message : string)
| NonError.

(** The result of an evaluation that may throw. *)
Inductive Exc (A : Type) :=
| Ok (a : A)
| Throw (e : Thrown).
Global Arguments Ok {A} a.
Global Arguments Throw {A} e.

(** A settled promise of a string, as [Promise.allSettled] reports it
    and as an awaited call yields it. *)
Inductive Settled :=
| Fulfilled (value : string)
| Rejected (reason : Thrown).

End JS.

Import JS.

(** ** Data model *)

(** A [File]: its name, its [type], and its bytes. *)
Record File := mkFile {
  file_name : string;
  file_type : string;
  file_bytes : string;
}.

(** The [type] of a file built by [new File(bits, name, {type})]: the
    empty string when the given type has a character outside U+0020 to
    U+007E, and otherwise the given type with its upper-case ASCII
    letters made lower-case. *)
Definition isPrintable (c : ascii) : bool :=
  let n := nat_of_ascii c in (32 <=? n)%nat && (n <=? 126)%nat.

Definition asciiLower (c : ascii) : ascii :=
  let n := nat_of_ascii c in
  if (65 <=? n)%nat && (n <=? 90)%nat then ascii_of_nat (n + 32) else c.

Fixpoint allPrintable (s : string) : bool :=
  match s with
  | EmptyString => true
  | String c r => isPrintable c && allPrintable r
  end.

Fixpoint lowercase (s : string) : string :=
  match s with
  | EmptyString => EmptyString
  | String c r => String (asciiLower c) (lowercase r)
  end.

Definition normalizedType (type : string) : string :=
  if allPrintable type then lowercase type else "".

(** [new File([bytes], name, {type})]. *)
Definition newFile (bytes name type : string) : File :=
  mkFile name (normalizedType type) bytes.

(** [interface ImageState]; the fields [id] and [name] carry a prefix. *)
Record ImageState := mkImageState {
  img_id : string;
  img_name : string;
  originalFile : File;
  history : list File;
  historyIndex : Z;
}.

Record Hotspot := mkHotspot { hotspot_x : Z; hotspot_y : Z }.

Record CropRect := mkCropRect {
  crop_x : Z; crop_y : Z; crop_width : Z; crop_height : Z
}.

Inductive Tab := TabRetouch | TabAdjust | TabFilters | TabCrop.

#[global] Instance File_eq_dec : EqDecision File.
Proof. solve_decision. Defined.

#[global] Instance ImageState_eq_dec : EqDecision ImageState.
Proof. solve_decision. Defined.

#[global] Instance Tab_eq_dec : EqDecision Tab.
Proof. solve_decision. Defined.

(** The [useState] variables of [App] that the handlers below read or
    write. *)
Record AppState := mkAppState {
  images : list ImageState;
  activeImageId : option string;
  selectedImageIds : gset string;
  prompt : string;
  isLoading : bool;
  loadingMessage : string;
  error : option string;
  editHotspot : option Hotspot;
  displayHotspot : option Hotspot;
  activeTab : Tab;
  crop : option CropRect;
  completedCrop : option CropRect;
  previewImage : option File;
}.

Definition initialState : AppState :=
  {| images := [];
     activeImageId := None;
     selectedImageIds := ∅;
     prompt := "";
     isLoading := false;
     loadingMessage := "AI sedang bekerja...";
     error := None;
     editHotspot := None;
     displayHotspot := None;
     activeTab := TabRetouch;
     crop := None;
     completedCrop := None;
     previewImage := None |}.

(** The state setters. *)
Definition setImages (f : list ImageState → list ImageState) (st : AppState) : AppState :=
  mkAppState (f (images st)) (activeImageId st) (selectedImageIds st) (prompt st)
    (isLoading st) (loadingMessage st) (error st) (editHotspot st)
    (displayHotspot st) (activeTab st) (crop st) (completedCrop st) (previewImage st).

Definition setActiveImageId (v : option string) (st : AppState) : AppState :=
  mkAppState (images st) v (selectedImageIds st) (prompt st)
    (isLoading st) (loadingMessage st) (error st) (editHotspot st)
    (displayHotspot st) (activeTab st) (crop st) (completedCrop st) (previewImage st).

Definition setSelectedImageIds (f : gset string → gset string) (st : AppState) : AppState :=
  mkAppState (images st) (activeImageId st) (f (selectedImageIds st)) (prompt st)
    (isLoading st) (loadingMessage st) (error st) (editHotspot st)
    (displayHotspot st) (activeTab st) (crop st) (completedCrop st) (previewImage st).

Definition setPrompt (v : string) (st : AppState) : AppState :=
  mkAppState (images st) (activeImageId st) (selectedImageIds st) v
    (isLoading st) (loadingMessage st) (error st) (editHotspot st)
    (displayHotspot st) (activeTab st) (crop st) (completedCrop st) (previewImage st).

Definition setIsLoading (v : bool) (st : AppState) : AppState :=
  mkAppState (images st) (activeImageId st) (selectedImageIds st) (prompt st)
    v (loadingMessage st) (error st) (editHotspot st)
    (displayHotspot st) (activeTab st) (crop st) (completedCrop st) (previewImage st).

Definition setLoadingMessage (v : string) (st : AppState) : AppState :=
  mkAppState (images st) (activeImageId st) (selectedImageIds st) (prompt st)
    (isLoading st) v (error st) (editHotspot st)
    (displayHotspot st) (activeTab st) (crop st) (completedCrop st) (previewImage st).

Definition setError (v : option string) (st : AppState) : AppState :=
  mkAppState (images st) (activeImageId st) (selectedImageIds st) (prompt st)
    (isLoading st) (loadingMessage st) v (editHotspot st)
    (displayHotspot st) (activeTab st) (crop st) (completedCrop st) (previewImage st).

Definition setEditHotspot (v : option Hotspot) (st : AppState) : AppState :=
  mkAppState (images st) (activeImageId st) (selectedImageIds st) (prompt st)
    (isLoading st) (loadingMessage st) (error st) v
    (displayHotspot st) (activeTab st) (crop st) (completedCrop st) (previewImage st).

Definition setDisplayHotspot (v : option Hotspot) (st : AppState) : AppState :=
  mkAppState (images st) (activeImageId st) (selectedImageIds st) (prompt st)
    (isLoading st) (loadingMessage st) (error st) (editHotspot st)
    v (activeTab st) (crop st) (completedCrop st) (previewImage st).

Definition setActiveTab (v : Tab) (st : AppState) : AppState :=
  mkAppState (images st) (activeImageId st) (selectedImageIds st) (prompt st)
    (isLoading st) (loadingMessage st) (error st) (editHotspot st)
    (displayHotspot st) v (crop st) (completedCrop st) (previewImage st).

Definition setCrop (v : option CropRect) (st : AppState) : AppState :=
  mkAppState (images st) (activeImageId st) (selectedImageIds st) (prompt st)
    (isLoading st) (loadingMessage st) (error st) (editHotspot st)
    (displayHotspot st) (activeTab st) v (completedCrop st) (previewImage st).

Definition setCompletedCrop (v : option CropRect) (st : AppState) : AppState :=
  mkAppState (images st) (activeImageId st) (selectedImageIds st) (prompt st)
    (isLoading st) (loadingMessage st) (error st) (editHotspot st)
    (displayHotspot st) (activeTab st) (crop st) v (previewImage st).

Definition setPreviewImage (v : option File) (st : AppState) : AppState :=
  mkAppState (images st) (activeImageId st) (selectedImageIds st) (prompt st)
    (isLoading st) (loadingMessage st) (error st) (editHotspot st)
    (displayHotspot st) (activeTab st) (crop st) (completedCrop st) v.

(** ** Values derived at each render *)

(** [images.find(img => img.id === activeImageId)]. *)
Definition findImage (imageId : option string) (imgs : list ImageState) : option ImageState :=
  snd <$> list_find (λ img, Some (img_id img) = imageId) imgs.

Definition activeImageState (st : AppState) : option ImageState :=
  findImage (activeImageId st) (images st).

(** [activeImageState?.history[activeImageState.historyIndex] ?? null]. *)
Definition currentImage (st : AppState) : option File :=
  img ← activeImageState st; JS.index (history img) (historyIndex img).

Definition isPreviewing (st : AppState) : bool := bool_decide (is_Some (previewImage st)).

(** [(activeImageState?.historyIndex ?? 0) > 0]. *)
Definition canUndo (st : AppState) : bool :=
  0 <? default 0 (historyIndex <$> activeImageState st).

(** [activeImageState ? historyIndex < history.length - 1 : false]. *)
Definition canRedo (st : AppState) : bool :=
  match activeImageState st with
  | Some img => historyIndex img <? Z.of_nat (length (history img)) - 1
  | None => false
  end.

(** ** History handlers *)

(** The branch-on-new-edit update of one image, written out in both
    [addImageToHistory] and the batch branch of [handleBatchOperation]:
    [slice(0, historyIndex + 1)], [push], cursor to the last index. *)
Definition pushSnapshot (newImageFile : File) (image : ImageState) : ImageState :=
  let newHistory := JS.slice0 (history image) (historyIndex image + 1) ++ [newImageFile] in
  {| img_id := img_id image;
     img_name := img_name image;
     originalFile := originalFile image;
     history := newHistory;
     historyIndex := Z.of_nat (length newHistory) - 1 |}.

Definition addImageToHistory (newImageFile : File) (imageId : string) (st : AppState) : AppState :=
  let st1 :=
    setImages (map (λ image,
      if decide (img_id image = imageId) then pushSnapshot newImageFile image
      else image)) st in
  if decide (Some imageId = activeImageId st)
  then setCompletedCrop None (setCrop None st1)
  else st1.

Definition withHistoryIndex (i : Z) (img : ImageState) : ImageState :=
  {| img_id := img_id img;
     img_name := img_name img;
     originalFile := originalFile img;
     history := history img;
     historyIndex := i |}.

Definition handleUndo (st : AppState) : AppState :=
  if canUndo st && JS.truthy_opt (activeImageId st) then
    let st1 :=
      setImages (map (λ img,
        if decide (Some (img_id img) = activeImageId st)
        then withHistoryIndex (historyIndex img - 1) img
        else img)) st in
    setDisplayHotspot None (setEditHotspot None st1)
  else st.

Definition handleRedo (st : AppState) : AppState :=
  if canRedo st && JS.truthy_opt (activeImageId st) then
    let st1 :=
      setImages (map (λ img,
        if decide (Some (img_id img) = activeImageId st)
        then withHistoryIndex (historyIndex img + 1) img
        else img)) st in
    setDisplayHotspot None (setEditHotspot None st1)
  else st.

Definition resetImage (img : ImageState) : ImageState :=
  {| img_id := img_id img;
     img_name := img_name img;
     originalFile := originalFile img;
     history := [originalFile img];
     historyIndex := 0 |}.

Definition handleReset (st : AppState) : AppState :=
  let st1 :=
    setImages (map (λ img,
      if decide (Some (img_id img) = activeImageId st) then resetImage img
      else img)) st in
  setDisplayHotspot None (setEditHotspot None (setError None st1)).

(** ** Collection handlers *)

(** One entry of the uploaded [FileList], with the values that
    [Date.now()] and [Math.random()] return while its id is built (the
    random number as it prints in the template string). *)
Record Upload := mkUpload {
  upload_file : File;
  upload_now : N;
  upload_random : string;
}.

(** The object built for one uploaded file. *)
Definition newImageOf (u : Upload) : ImageState :=
  let file := upload_file u in
  {| img_id := file_name file +:+ "-" +:+ pretty (upload_now u) +:+ "-" +:+ upload_random u;
     img_name := file_name file;
     originalFile := file;
     history := [file];
     historyIndex := 0 |}.

Definition handleImageUploads (files : list Upload) (st : AppState) : AppState :=
  let st0 := setError None st in
  let newImages := map newImageOf files in
  let st1 := setImages (λ currentImages, currentImages ++ newImages) st0 in
  let st2 :=
    match img_id <$> head newImages with
    | Some firstNewImageId =>
        if JS.truthy firstNewImageId then
          let st' :=
            if negb (JS.truthy_opt (activeImageId st))
            then setActiveImageId (Some firstNewImageId) st1
            else st1 in
          setSelectedImageIds (λ currentIds, currentIds ∪ {[ firstNewImageId ]}) st'
        else st1
    | None => st1
    end in
  setCompletedCrop None (setCrop None (setActiveTab TabRetouch
    (setDisplayHotspot None (setEditHotspot None st2)))).

(** [handleFileSelect]: nothing happens for [null] or an empty list. *)
Definition handleFileSelect (files : option (list Upload)) (st : AppState) : AppState :=
  match files with
  | Some (u :: us) => handleImageUploads (u :: us) st
  | _ => st
  end.

Definition handleDeleteImage (idToDelete : string) (st : AppState) : AppState :=
  let newImages := filter (λ img, img_id img ≠ idToDelete) (images st) in
  let st1 := setImages (λ _, newImages) st in
  let st2 :=
    if decide (activeImageId st = Some idToDelete)
    then setActiveImageId (img_id <$> head newImages) st1
    else st1 in
  setSelectedImageIds (λ currentIds, currentIds ∖ {[ idToDelete ]}) st2.

Definition handleUploadNew (st : AppState) : AppState :=
  setDisplayHotspot None (setEditHotspot None (setPrompt "" (setError None
    (setSelectedImageIds (λ _, ∅) (setActiveImageId None (setImages (λ _, []) st)))))).

Definition handleSelectImage (id : string) (st : AppState) : AppState :=
  if decide (Some id = activeImageId st) then st
  else setError None (setCompletedCrop None (setCrop None (setActiveTab TabRetouch
         (setDisplayHotspot None (setEditHotspot None (setActiveImageId (Some id) st)))))).

Definition handleToggleSelection (id : string) (st : AppState) : AppState :=
  setSelectedImageIds (λ currentIds,
    if decide (id ∈ currentIds) then currentIds ∖ {[ id ]} else currentIds ∪ {[ id ]}) st.

Definition handleSelectAll (st : AppState) : AppState :=
  setSelectedImageIds (λ _, list_to_set (img_id <$> images st)) st.

Definition handleDeselectAll (st : AppState) : AppState :=
  setSelectedImageIds (λ _, ∅) st.

(** The effect that leaves the single-image tabs when more than one image
    is selected; it runs after a render in which the selection or the tab
    changed. *)
Definition tabSelectionEffect (st : AppState) : AppState :=
  if bool_decide (1 < size (selectedImageIds st))%nat
     && bool_decide (activeTab st = TabRetouch ∨ activeTab st = TabCrop)
  then setActiveTab TabAdjust st
  else st.

(** ** Preview gate *)

Definition handleAcceptPreview (st : AppState) : AppState :=
  let st1 :=
    match previewImage st, activeImageId st with
    | Some file, Some imageId =>
        if JS.truthy imageId then addImageToHistory file imageId st else st
    | _, _ => st
    end in
  setPreviewImage None st1.

Definition handleCancelPreview (st : AppState) : AppState :=
  setPreviewImage None st.

(** ** Operation dispatcher *)

(** [err instanceof Error ? err.message : '...']. *)
Definition errorMessageOf (err : Thrown) : string :=
  match err with
  | ErrorObject message => message
  | NonError => "Terjadi kesalahan tidak dikenal."
  end.

(** The three statements before a call is issued, in [handleGenerate]
    and in [handleBatchOperation]: [setIsLoading(true)],
    [setLoadingMessage(...)], [setError(null)]. *)
Definition loadingState (st : AppState) : AppState :=
  setError None (setLoadingMessage "AI sedang bekerja..." (setIsLoading true st)).

(** The arguments of the one call that [handleGenerate] issues. *)
Record GenerateCall := mkGenerateCall {
  call_image : File;
  call_prompt : string;
  call_hotspot : Hotspot;
}.

(** [handleGenerate] up to its [await]: the three guards, then the loading
    flags; the call to [generateEditedImage], when one is issued. *)
Definition handleGenerate_begin (st : AppState) : AppState * option GenerateCall :=
  match currentImage st with
  | Some image =>
      if JS.truthy_opt (activeImageId st) then
        if JS.truthy (JS.trim (prompt st)) then
          match editHotspot st with
          | Some hotspot =>
              (loadingState st, Some (mkGenerateCall image (prompt st) hotspot))
          | None =>
              (setError (Some "Silakan klik pada gambar untuk memilih area yang akan diedit.") st,
               None)
          end
        else (setError (Some "Silakan masukkan deskripsi untuk editan Anda.") st, None)
      else (setError (Some "Tidak ada gambar yang dimuat untuk diedit.") st, None)
  | None => (setError (Some "Tidak ada gambar yang dimuat untuk diedit.") st, None)
  end.

(** What [handleBatchOperation] issues before its [await]: nothing, one
    call for the single target, or one call per target. *)
Inductive BatchDispatch :=
| NoDispatch
| SingleDispatch (target : ImageState)
| MultiDispatch (targets : list ImageState).

(** The file passed to [operation] for a target:
    [target.history[target.historyIndex]]. *)
Definition callArgument (target : ImageState) : option File :=
  JS.index (history target) (historyIndex target).

Definition handleBatchOperation_begin (operationName : string) (st : AppState)
  : AppState * BatchDispatch :=
  let targets := filter (λ img, img_id img ∈ selectedImageIds st) (images st) in
  match targets with
  | [] =>
      (setError (Some ("Pilih setidaknya satu gambar untuk menerapkan "
                       +:+ operationName +:+ ".")) st,
       NoDispatch)
  | [target] => (loadingState st, SingleDispatch target)
  | _ => (loadingState st, MultiDispatch targets)
  end.

Section Decoding.

(** The browser's [atob], which throws on input that is not base64. *)
Variable atob : string → Exc string.

(** [dataURLtoFile]: the bytes of the file are the character codes of
    the decoded string, and its type is what the [File] constructor makes
    of the MIME text. *)
Definition dataURLtoFile (dataurl filename : string) : Exc File :=
  match JS.split_on ","%char dataurl with
  | arr0 :: arr1 :: _ =>
      match JS.match_colon_group arr0 with
      | Some mime =>
          if JS.truthy mime then
            match atob arr1 with
            | Ok bstr => Ok (newFile bstr filename mime)
            | Throw e => Throw e
            end
          else Throw (ErrorObject "Could not parse MIME type from data URL")
      | None => Throw (ErrorObject "Could not parse MIME type from data URL")
      end
  | _ => Throw (ErrorObject "Invalid data URL")
  end.

(** The first two statements of a [try] block of the single-image
    handlers: the awaited call yields its data URL or throws its
    rejection reason, then [dataURLtoFile] builds the file or throws. *)
Definition awaitedFile (outcome : Settled) (filename : string) : Exc File :=
  match outcome with
  | Fulfilled url => dataURLtoFile url filename
  | Rejected reason => Throw reason
  end.

(** [handleGenerate] from its [await] on: [outcome] is how the call
    settled, [now] what [Date.now()] returns, [st] the state then. *)
Definition handleGenerate_settle (now : N) (outcome : Settled) (st : AppState) : AppState :=
  let st1 :=
    match awaitedFile outcome ("edited-" +:+ pretty now +:+ ".png") with
    | Ok newImageFile =>
        setDisplayHotspot None (setEditHotspot None (setPreviewImage (Some newImageFile) st))
    | Throw err =>
        setError (Some ("Gagal membuat gambar. " +:+ errorMessageOf err)) st
    end in
  setIsLoading false st1.

(** The single-target branch of [handleBatchOperation] from its [await]
    on. *)
Definition handleBatchOperation_settleSingle (operationName : string)
    (target : ImageState) (outcome : Settled) (st : AppState) : AppState :=
  let st1 :=
    match awaitedFile outcome (operationName +:+ "-" +:+ img_name target) with
    | Ok newImageFile => setPreviewImage (Some newImageFile) st
    | Throw err =>
        setError (Some ("Gagal menerapkan " +:+ operationName +:+ ". "
                        +:+ errorMessageOf err)) st
    end in
  setIsLoading false st1.

(** The [results.forEach] loop from position [index] on, with the map
    [newImageFiles] and the array [failedEdits] built so far.  Reading
    [targets[index].name] of a missing target throws, as does a result
    that [dataURLtoFile] rejects: the loop is not inside a [try]. *)
Fixpoint collectResults (operationName : string) (targets : list ImageState)
    (results : list Settled) (index : nat)
    (newImageFiles : gmap string File) (failedEdits : list string)
  : Exc (gmap string File * list string) :=
  match results with
  | [] => Ok (newImageFiles, failedEdits)
  | result :: rest =>
      match targets !! index with
      | None => Throw (ErrorObject "Cannot read properties of undefined (reading 'name')")
      | Some targetImage =>
          match result with
          | Fulfilled value =>
              match dataURLtoFile value (operationName +:+ "-" +:+ img_name targetImage) with
              | Ok newImageFile =>
                  collectResults operationName targets rest (S index)
                    (<[img_id targetImage := newImageFile]> newImageFiles) failedEdits
              | Throw e => Throw e
              end
          | Rejected _ =>
              collectResults operationName targets rest (S index)
                newImageFiles (failedEdits ++ [img_name targetImage])
          end
      end
  end.

(** The update passed to [setImages] by the batch branch. *)
Definition applyNewImageFiles (newImageFiles : gmap string File) (image : ImageState)
  : ImageState :=
  match newImageFiles !! img_id image with
  | Some newImageFile => pushSnapshot newImageFile image
  | None => image
  end.

Definition batchErrorMessage (operationName : string) (failedEdits : list string) : string :=
  "Gagal menerapkan " +:+ operationName +:+ " pada " +:+ pretty (length failedEdits)
    +:+ " gambar: " +:+ JS.join ", " failedEdits +:+ ". Gambar lainnya berhasil diperbarui.".

(** The batch branch of [handleBatchOperation] once
    [Promise.allSettled] has resolved with [results]. *)
Definition handleBatchOperation_settleBatch (operationName : string)
    (targets : list ImageState) (results : list Settled) (st : AppState) : Exc AppState :=
  match collectResults operationName targets results 0 ∅ [] with
  | Throw e => Throw e
  | Ok (newImageFiles, failedEdits) =>
      let st1 :=
        if bool_decide (0 < size newImageFiles)%nat
        then setImages (map (applyNewImageFiles newImageFiles)) st
        else st in
      let st2 :=
        if bool_decide (0 < length failedEdits)%nat
        then setError (Some (batchErrorMessage operationName failedEdits)) st1
        else st1 in
      Ok (setIsLoading false st2)
  end.

End Decoding.

(** ** Properties of states *)

(** The History Stack invariant of one image: the cursor is an index of
    the entries (so the entries are not empty). *)
Definition historyValid (img : ImageState) : Prop :=
  0 ≤ historyIndex img < Z.of_nat (length (history img)).

(** Entries with the same id have stacks of the same shape.  Every update
    of a stack is addressed by id, so the shape of an id is well defined
    as long as it was when its entries were created. *)
Definition sameShape (a b : ImageState) : Prop :=
  length (history a) = length (history b) ∧ historyIndex a = historyIndex b.

Definition coherent (imgs : list ImageState) : Prop :=
  ∀ a b, a ∈ imgs → b ∈ imgs → img_id a = img_id b → sameShape a b.

Definition historiesValid (imgs : list ImageState) : Prop :=
  ∀ img, img ∈ imgs → historyValid img.

Definition stacksInv (imgs : list ImageState) : Prop :=
  historiesValid imgs ∧ coherent imgs.

(** The active id and the selected ids name entries of the collection. *)
Definition referencesPresent (st : AppState) : Prop :=
  (∀ a, activeImageId st = Some a → a ∈ img_id <$> images st) ∧
  (∀ x, x ∈ selectedImageIds st → x ∈ img_id <$> images st).

(** The operations on histories that a user can reach: switching the
    active image, appending a snapshot to an image, undo, redo, reset. *)
Inductive HistoryOp :=
| OpSelect (id : string)
| OpAppend (newImageFile : File) (imageId : string)
| OpUndo
| OpRedo
| OpReset.

Definition applyOp (op : HistoryOp) (st : AppState) : AppState :=
  match op with
  | OpSelect id => handleSelectImage id st
  | OpAppend newImageFile imageId => addImageToHistory newImageFile imageId st
  | OpUndo => handleUndo st
  | OpRedo => handleRedo st
  | OpReset => handleReset st
  end.

(** The operations applied from left to right. *)
Definition runOps (ops : list HistoryOp) (st : AppState) : AppState :=
  foldl (λ s op, applyOp op s) st ops.

(** The user events on the collection.  The thumbnails that trigger
    [handleSelectImage], [handleToggleSelection] and [handleDeleteImage]
    are rendered from the entries, so these events carry the id of a
    present entry. *)
Inductive CollectionEvent :=
| EvUpload (files : list Upload)
| EvDelete (id : string)
| EvSelect (id : string)
| EvToggle (id : string)
| EvSelectAll
| EvDeselectAll
| EvUploadNew
| EvAccept
| EvCancel
| EvHistory (op : HistoryOp).

Definition applyEvent (ev : CollectionEvent) (st : AppState) : AppState :=
  match ev with
  | EvUpload files => handleFileSelect (Some files) st
  | EvDelete id => handleDeleteImage id st
  | EvSelect id => handleSelectImage id st
  | EvToggle id => handleToggleSelection id st
  | EvSelectAll => handleSelectAll st
  | EvDeselectAll => handleDeselectAll st
  | EvUploadNew => handleUploadNew st
  | EvAccept => handleAcceptPreview st
  | EvCancel => handleCancelPreview st
  | EvHistory op => applyOp op st
  end.

Definition eventEnabled (ev : CollectionEvent) (st : AppState) : Prop :=
  match ev with
  | EvDelete id | EvSelect id | EvToggle id | EvHistory (OpSelect id) =>
      id ∈ img_id <$> images st
  | _ => True
  end.

Inductive reachable : AppState → Prop :=
| reachable_initial : reachable initialState
| reachable_event ev st :
    reachable st → eventEnabled ev st → reachable (applyEvent ev st).

(** An update of the entries that satisfy [P], as the handlers write it
    inside [map]. *)
Definition updateWhere (P : ImageState → Prop) `{!∀ img, Decision (P img)}
    (upd : ImageState → ImageState) (img : ImageState) : ImageState :=
  if decide (P img) then upd img else img.

(** ** The statements compared with the handlers *)

(** The preconditions of a retouch request, in the order in which they
    are to be checked. *)
Inductive Precondition :=
| ActiveImagePresent
| InstructionNonEmpty
| FocusPointPresent.

#[global] Instance Precondition_eq_dec : EqDecision Precondition.
Proof. solve_decision. Defined.

Definition checkOrder : list Precondition :=
  [ActiveImagePresent; InstructionNonEmpty; FocusPointPresent].

(** When each precondition is met: an active id that names an image with
    a current snapshot; an instruction that is not blank; a focus
    point. *)
Definition preconditionMet (st : AppState) (p : Precondition) : bool :=
  match p with
  | ActiveImagePresent =>
      bool_decide (is_Some (currentImage st)) && JS.truthy_opt (activeImageId st)
  | InstructionNonEmpty => JS.truthy (JS.trim (prompt st))
  | FocusPointPresent => bool_decide (is_Some (editHotspot st))
  end.

Definition firstUnmet (st : AppState) : option Precondition :=
  List.find (λ p, negb (preconditionMet st p)) checkOrder.

Definition preconditionError (p : Precondition) : string :=
  match p with
  | ActiveImagePresent => "Tidak ada gambar yang dimuat untuk diedit."
  | InstructionNonEmpty => "Silakan masukkan deskripsi untuk editan Anda."
  | FocusPointPresent => "Silakan klik pada gambar untuk memilih area yang akan diedit."
  end.

(** Every id created by an upload is in the selection afterwards. *)
Definition uploadSelectsAll (files : list Upload) (st : AppState) : Prop :=
  ∀ u, u ∈ files →
    img_id (newImageOf u) ∈ selectedImageIds (handleImageUploads files st).

(** A retouch dispatched in [st] while [X] is active, whose call fulfils
    with [url] after the user made [switchTo] active, is committed by
    accept to the History Stack of [X] and to no other. *)
Definition acceptCommitsToDispatchOwner (atob : string → Exc string)
    (st : AppState) (X switchTo : string) (now : N) (url : string) : Prop :=
  ∀ st1 call newImageFile,
    activeImageId st = Some X →
    handleGenerate_begin st = (st1, Some call) →
    dataURLtoFile atob url ("edited-" +:+ pretty now +:+ ".png") = Ok newImageFile →
    images (handleAcceptPreview
              (handleGenerate_settle atob now (Fulfilled url)
                 (handleSelectImage switchTo st1)))
      = images (addImageToHistory newImageFile X st1).

(** The targets of a batch whose call was rejected, in dispatch order. *)
Definition isRejected (r : Settled) : bool :=
  match r with
  | Rejected _ => true
  | Fulfilled _ => false
  end.

Definition failedTargets (targets : list ImageState) (results : list Settled)
  : list ImageState :=
  fst <$> filter (λ tr, isRejected tr.2 = true) (zip targets results).

(** Every call of a batch that fulfilled did so with a data URL that
    [dataURLtoFile] accepts. *)
Definition resultsDecode (atob : string → Exc string) (operationName : string)
    (targets : list ImageState) (results : list Settled) : Prop :=
  ∀ k t url,
    targets !! k = Some t → results !! k = Some (Fulfilled url) →
    ∃ f, dataURLtoFile atob url (operationName +:+ "-" +:+ img_name t) = Ok f.

(** ** The image service, [src/services/geminiService.ts] *)

Module Gemini.

(** The fields of a [GenerateContentResponse] that [handleApiResponse]
    reads; an absent field is [None].  [candidateParts] is
    [content?.parts], and [text] is what the accessor of the response
    returns. *)
Record Blob := mkBlob {
  mimeType : option string;
  data : option string;
}.

Record Part := mkPart { inlineData : option Blob }.

Record Candidate := mkCandidate {
  candidateParts : option (list Part);
  finishReason : option string;
}.

Record PromptFeedback := mkPromptFeedback {
  blockReason : option string;
  blockReasonMessage : option string;
}.

Record Response := mkResponse {
  promptFeedback : option PromptFeedback;
  candidates : option (list Candidate);
  text : option string;
}.

(** A value of type [string | undefined] inside a template string. *)
Definition template (o : option string) : string := default "undefined" o.

(** [`data:${mimeType};base64,${data}`]. *)
Definition dataUrlOf (b : Blob) : string :=
  "data:" +:+ template (mimeType b) +:+ ";base64," +:+ template (data b).

(** [response.candidates?.[0]]. *)
Definition firstCandidate (response : Response) : option Candidate :=
  cs ← candidates response; head cs.

(** [response.candidates?.[0]?.content?.parts?.find(part => part.inlineData)]. *)
Definition imagePartFromResponse (response : Response) : option Part :=
  c ← firstCandidate response;
  parts ← candidateParts c;
  List.find (λ part, bool_decide (is_Some (inlineData part))) parts.

(** The double quote character, as a string. *)
Definition quote : string := String (ascii_of_nat 34) EmptyString.

Definition blockedMessage (context reason : string) (message : option string) : string :=
  "Permintaan diblokir saat " +:+ context +:+ ". Alasan: " +:+ reason +:+ ". "
    +:+ (if JS.truthy_opt message then template message else "").

Definition stoppedMessage (context reason : string) : string :=
  "Pembuatan gambar untuk " +:+ context +:+ " berhenti secara tak terduga. Alasan: "
    +:+ reason +:+ ". Ini sering terkait dengan pengaturan keamanan.".

Definition noImageMessage (context : string) (textFeedback : option string) : string :=
  "Model AI tidak mengembalikan gambar untuk " +:+ context +:+ ". " +:+
  (if JS.truthy_opt textFeedback
   then "Model merespons dengan teks: " +:+ quote +:+ template textFeedback +:+ quote
   else "Ini bisa terjadi karena filter keamanan atau jika permintaan terlalu rumit. Coba ulangi permintaan Anda agar lebih langsung.").

Definition handleApiResponse (response : Response) (context : string) : Exc string :=
  let reason := pf ← promptFeedback response; blockReason pf in
  if JS.truthy_opt reason then
    Throw (ErrorObject (blockedMessage context (template reason)
                          (pf ← promptFeedback response; blockReasonMessage pf)))
  else
    match part ← imagePartFromResponse response; inlineData part with
    | Some blob => Ok (dataUrlOf blob)
    | None =>
        let finish := c ← firstCandidate response; finishReason c in
        if JS.truthy_opt finish && negb (bool_decide (finish = Some "STOP")) then
          Throw (ErrorObject (stoppedMessage context (template finish)))
        else
          Throw (ErrorObject (noImageMessage context (JS.trim <$> text response)))
    end.

(** [fileToPart] once the [FileReader] has produced [dataUrl]: the MIME
    type and the text between the first and the second comma. *)
Definition fileToPart_parse (dataUrl : string) : Exc Blob :=
  match JS.split_on ","%char dataUrl with
  | arr0 :: arr1 :: _ =>
      match JS.match_colon_group arr0 with
      | Some mime =>
          if JS.truthy mime then Ok (mkBlob (Some mime) (Some arr1))
          else Throw (ErrorObject "Could not parse MIME type from data URL")
      | None => Throw (ErrorObject "Could not parse MIME type from data URL")
      end
  | _ => Throw (ErrorObject "Invalid data URL")
  end.

End Gemini.

(** ** Texts *)

(** Every character of [s] satisfies [p]. *)
Fixpoint allChars (p : ascii → bool) (s : string) : bool :=
  match s with
  | EmptyString => true
  | String c r => p c && allChars p r
  end.

Definition notComma (c : ascii) : bool := negb (bool_decide (c = ","%char)).

(** A MIME type that survives the trip through a data URL: not empty, and
    free of commas, semicolons and line terminators. *)
Definition mimeChar (c : ascii) : bool :=
  notComma c && negb (bool_decide (c = ";"%char)) && negb (JS.is_line_terminator c).

Definition plainMime (mime : string) : Prop :=
  JS.truthy mime = true ∧ allChars mimeChar mime = true.

(** A character that the [File] constructor leaves as it is in a type:
    printable ASCII and no upper-case letter. *)
Definition keptInType (c : ascii) : bool :=
  isPrintable c && bool_decide (asciiLower c = c).

(** ** A toggle as the user sees it

    A click on the check box of a thumbnail runs [handleToggleSelection];
    the render that follows runs the effect on the selection before the
    next click can happen. *)
Definition toggleAndRender (id : string) (st : AppState) : AppState :=
  tabSelectionEffect (handleToggleSelection id st).

Definition singleImageTab (tab : Tab) : bool :=
  bool_decide (tab = TabRetouch ∨ tab = TabCrop).

(** ** All events of the component *)

(** The inline handlers of the markup that only set one variable. *)
Definition handlePromptChange (value : string) (st : AppState) : AppState :=
  setPrompt value st.

Definition handleDismissError (st : AppState) : AppState := setError None st.

Definition handleTabClick (tab : Tab) (st : AppState) : AppState := setActiveTab tab st.

(** User events, the effect that follows a render, and the points at
    which the asynchronous handlers start and resume.  A resumption
    carries what its closure captured and how its calls settled; when the
    batch loop throws, no setter has run and the state stays as it is. *)
Inductive AppEvent :=
| UserEvent (ev : CollectionEvent)
| PromptChange (value : string)
| DismissError
| TabClick (tab : Tab)
| TabEffect
| GenerateBegin
| GenerateSettle (now : N) (outcome : Settled)
| BatchBegin (operationName : string)
| BatchSettleSingle (operationName : string) (target : ImageState) (outcome : Settled)
| BatchSettleBatch (operationName : string) (targets : list ImageState)
    (results : list Settled).

Definition applyAppEvent (atob : string → Exc string) (ev : AppEvent) (st : AppState)
  : AppState :=
  match ev with
  | UserEvent ev => applyEvent ev st
  | PromptChange value => handlePromptChange value st
  | DismissError => handleDismissError st
  | TabClick tab => handleTabClick tab st
  | TabEffect => tabSelectionEffect st
  | GenerateBegin => (handleGenerate_begin st).1
  | GenerateSettle now outcome => handleGenerate_settle atob now outcome st
  | BatchBegin operationName => (handleBatchOperation_begin operationName st).1
  | BatchSettleSingle operationName target outcome =>
      handleBatchOperation_settleSingle atob operationName target outcome st
  | BatchSettleBatch operationName targets results =>
      match handleBatchOperation_settleBatch atob operationName targets results st with
      | Ok st' => st'
      | Throw _ => st
      end
  end.

(** The ids that an upload creates are new: distinct from each other and
    from the ids of the present entries. *)
Definition freshUpload (files : list Upload) (st : AppState) : Prop :=
  NoDup ((img_id <$> images st) ++ (img_id <$> map newImageOf files)).

Definition appEventEnabled (ev : AppEvent) (st : AppState) : Prop :=
  match ev with
  | UserEvent (EvUpload files) => freshUpload files st
  | UserEvent ev => eventEnabled ev st
  | _ => True
  end.

Inductive appReachable (atob : string → Exc string) : AppState → Prop :=
| appReachable_initial : appReachable atob initialState
| appReachable_event ev st :
    appReachable atob st → appEventEnabled ev st →
    appReachable atob (applyAppEvent atob ev st).

(** Valid History Stacks, distinct ids none of which is the empty
    string, and references to present entries. *)
Definition wellFormed (st : AppState) : Prop :=
  historiesValid (images st) ∧
  NoDup (img_id <$> images st) ∧
  Forall (λ id, JS.truthy id = true) (img_id <$> images st) ∧
  referencesPresent st.

(** How [handleApiResponse] classifies a response. *)
Definition isBlocked (response : Gemini.Response) : bool :=
  JS.truthy_opt (pf ← Gemini.promptFeedback response; Gemini.blockReason pf).

Definition imageBlob (response : Gemini.Response) : option Gemini.Blob :=
  part ← Gemini.imagePartFromResponse response; Gemini.inlineData part.

Definition isStopped (response : Gemini.Response) : bool :=
  let finish := c ← Gemini.firstCandidate response; Gemini.finishReason c in
  JS.truthy_opt finish && negb (bool_decide (finish = Some "STOP")).

Inductive ResponseKind := Blocked | WithImage | Stopped | WithoutImage.

Definition responseKind (response : Gemini.Response) : ResponseKind :=
  if isBlocked response then Blocked
  else if bool_decide (is_Some (imageBlob response)) then WithImage
  else if isStopped response then Stopped
  else WithoutImage.

(** ** Sample states *)

Module Sample.

(** A stand-in for the browser's decoder: it accepts every string and
    returns it as it is. *)
Definition atob (s : string) : Exc string := Ok s.

Definition fileA : File := mkFile "a.png" "image/png" "bytes of A".
Definition fileB : File := mkFile "b.png" "image/png" "bytes of B".
Definition fileC : File := mkFile "c.png" "image/png" "bytes of C".
Definition fileD : File := mkFile "d.png" "image/png" "bytes of D".

Definition uploadA : Upload := mkUpload fileA 1700000000000 "0.25".
Definition uploadB : Upload := mkUpload fileB 1700000000000 "0.75".
Definition uploadC : Upload := mkUpload fileC 1700000000001 "0.5".

Definition idA : string := "a.png-1700000000000-0.25".
Definition idB : string := "b.png-1700000000000-0.75".
Definition idC : string := "c.png-1700000000001-0.5".

(** One image, then two edits of it: entries A, B, C with the cursor on
    C. *)
Definition oneImage : AppState := handleImageUploads [uploadA] initialState.

Definition threeEntries : AppState :=
  addImageToHistory fileC idA (addImageToHistory fileB idA oneImage).

(** Two images uploaded together: A is active and selected. *)
Definition twoImages : AppState :=
  handleImageUploads [uploadA; uploadB] initialState.

(** A retouch of A is ready: an instruction and a focus point. *)
Definition readyToRetouch : AppState :=
  setEditHotspot (Some (mkHotspot 10 20)) (setPrompt "make the sky blue" twoImages).

Definition editedUrl : string := "data:image/png;base64,ZWRpdGVk".

Definition editedFile : File := mkFile "edited-1700000000500.png" "image/png" "ZWRpdGVk".

(** The retouch of A is dispatched, the user makes B active while the
    call is pending, the call fulfils, and the preview is accepted. *)
Definition retouchDispatched : AppState := (handleGenerate_begin readyToRetouch).1.

Definition switchedWhilePending : AppState := handleSelectImage idB retouchDispatched.

Definition retouchSettled : AppState :=
  handleGenerate_settle atob 1700000000500 (Fulfilled editedUrl) switchedWhilePending.

(** The same retouch with no switch of the active image. *)
Definition retouchSettledInPlace : AppState :=
  handleGenerate_settle atob 1700000000500 (Fulfilled editedUrl) retouchDispatched.

(** A filter of the only image is pending when the image is deleted;
    the call then fulfils: a preview and no active image. *)
Definition filterDispatched : AppState := (handleBatchOperation_begin "filter" oneImage).1.

Definition imageA : ImageState := mkImageState idA "a.png" fileA [fileA] 0.
Definition imageB : ImageState := mkImageState idB "b.png" fileB [fileB] 0.
Definition imageC : ImageState := mkImageState idC "c.png" fileC [fileC] 0.

Definition previewWithoutActive : AppState :=
  handleBatchOperation_settleSingle atob "filter" imageA (Fulfilled editedUrl)
    (handleDeleteImage idA filterDispatched).

(** Three images, all selected, and a batch filter whose second call
    is rejected. *)
Definition threeSelected : AppState :=
  handleSelectAll (handleImageUploads [uploadA; uploadB; uploadC] initialState).

Definition batchDispatched : AppState := (handleBatchOperation_begin "filter" threeSelected).1.

Definition batchTargets : list ImageState := [imageA; imageB; imageC].

Definition batchResults : list Settled :=
  [Fulfilled "data:image/png;base64,QQ=="; Rejected (ErrorObject "quota exceeded");
   Fulfilled "data:image/png;base64,Qw=="].

Definition filteredA : File := mkFile "filter-a.png" "image/png" "QQ==".
Definition filteredC : File := mkFile "filter-c.png" "image/png" "Qw==".

End Sample.

(** ** Sample responses and sample runs *)

Module Case.

Definition pngBlob : Gemini.Blob := Gemini.mkBlob (Some "image/png") (Some "ZWRpdGVk").

(** A response whose first candidate has a text part, then an image. *)
Definition imageResponse : Gemini.Response :=
  Gemini.mkResponse None
    (Some [Gemini.mkCandidate
             (Some [Gemini.mkPart None; Gemini.mkPart (Some pngBlob)]) (Some "STOP")])
    None.

(** The same image, alone, in a response that also has text. *)
Definition imageResponseWithText : Gemini.Response :=
  Gemini.mkResponse None
    (Some [Gemini.mkCandidate (Some [Gemini.mkPart (Some pngBlob)]) None])
    (Some "Here is your image.").

(** A blocked prompt, although a candidate with an image came along. *)
Definition blockedResponse : Gemini.Response :=
  Gemini.mkResponse (Some (Gemini.mkPromptFeedback (Some "SAFETY") None))
    (Some [Gemini.mkCandidate (Some [Gemini.mkPart (Some pngBlob)]) (Some "STOP")])
    None.

(** No image: once stopped by the safety filter, once with a remark. *)
Definition stoppedResponse : Gemini.Response :=
  Gemini.mkResponse None
    (Some [Gemini.mkCandidate (Some [Gemini.mkPart None]) (Some "SAFETY")]) None.

Definition textOnlyResponse : Gemini.Response :=
  Gemini.mkResponse None
    (Some [Gemini.mkCandidate (Some [Gemini.mkPart None]) (Some "STOP")])
    (Some "  I cannot edit this image.  ").

(** A, edited twice, then one undo: entries A, B, C with the cursor on
    B, so that both undo and redo are available. *)
Definition middleOfHistory : AppState := handleUndo Sample.threeEntries.

Definition entryInMiddle : ImageState :=
  mkImageState Sample.idA "a.png" Sample.fileA
    [Sample.fileA; Sample.fileB; Sample.fileC] 1.

Definition entryAtEnd : ImageState :=
  mkImageState Sample.idA "a.png" Sample.fileA
    [Sample.fileA; Sample.fileB; Sample.fileC] 2.

(** Three images uploaded together; only the first is selected. *)
Definition threeImages : AppState :=
  handleImageUploads [Sample.uploadA; Sample.uploadB; Sample.uploadC] initialState.

Definition allRejected : list Settled :=
  [Rejected (ErrorObject "quota exceeded"); Rejected NonError;
   Rejected (ErrorObject "network down")].

(** The file of A uploaded a second time in the same millisecond. *)
Definition uploadAgain : Upload := mkUpload Sample.fileA 1700000000000 "0.5".

(** A run of events: two files are uploaded, A is cropped, B is ticked,
    a filter is started on both and settles with one failure, and the
    error is dismissed. *)
Definition run : list AppEvent :=
  [UserEvent (EvUpload [Sample.uploadA; Sample.uploadB]);
   UserEvent (EvHistory (OpAppend Sample.fileC Sample.idA));
   UserEvent (EvToggle Sample.idB);
   BatchBegin "filter";
   BatchSettleBatch "filter"
     [mkImageState Sample.idA "a.png" Sample.fileA [Sample.fileA; Sample.fileC] 1;
      Sample.imageB]
     [Fulfilled "data:image/png;base64,QQ=="; Rejected NonError];
   DismissError].

Definition afterRun : AppState :=
  foldl (λ st ev, applyAppEvent Sample.atob ev st) initialState run.

End Case.

(** * Lemmas on the primitives *)

Lemma slice0_take {A} (arr : list A) (e : Z) :
  0 ≤ e → JS.slice0 arr e = take (Z.to_nat e) arr.
Proof.
  intros He. unfold JS.slice0.
  destruct (e <? 0) eqn:Hneg; [lia|].
  destruct (Z.le_gt_cases e (Z.of_nat (length arr))) as [Hle|Hgt].
  - by rewrite Z.min_l.
  - rewrite Z.min_r by lia. rewrite Nat2Z.id.
    rewrite !take_ge; [done|lia|lia].
Qed.

Lemma slice0_length {A} (arr : list A) (e : Z) :
  0 ≤ e ≤ Z.of_nat (length arr) → length (JS.slice0 arr e) = Z.to_nat e.
Proof.
  intros He. rewrite slice0_take by lia. rewrite length_take. lia.
Qed.

Lemma truthy_app_dash (a b : string) : JS.truthy (a +:+ "-" +:+ b) = true.
Proof. by destruct a. Qed.

Lemma newImageOf_id_truthy (u : Upload) : JS.truthy (img_id (newImageOf u)) = true.
Proof. apply truthy_app_dash. Qed.

(** * Lemmas on one History Stack *)

Lemma pushSnapshot_history (f : File) (img : ImageState) :
  historyValid img →
  history (pushSnapshot f img)
    = take (S (Z.to_nat (historyIndex img))) (history img) ++ [f].
Proof.
  intros [Hlo Hhi]. cbn. rewrite slice0_take by lia.
  do 2 f_equal. lia.
Qed.

Lemma pushSnapshot_index (f : File) (img : ImageState) :
  historyValid img → historyIndex (pushSnapshot f img) = historyIndex img + 1.
Proof.
  intros [Hlo Hhi]. cbn. rewrite length_app, slice0_length by lia. cbn. lia.
Qed.

Lemma pushSnapshot_valid (f : File) (img : ImageState) :
  historyValid (pushSnapshot f img).
Proof.
  unfold historyValid. cbn. rewrite length_app. cbn. lia.
Qed.

Lemma pushSnapshot_shape (f g : File) (a b : ImageState) :
  sameShape a b → sameShape (pushSnapshot f a) (pushSnapshot g b).
Proof.
  intros [Hlen Hidx]. unfold sameShape. cbn.
  rewrite !length_app. unfold JS.slice0.
  rewrite !length_take, Hlen, Hidx. cbn. lia.
Qed.

(** * Lemmas on updates addressed by id *)

Section UpdateById.

Variable P : ImageState → Prop.
Context `{!∀ img, Decision (P img)}.
Variable upd : ImageState → ImageState.

Lemma updateWhere_lookup_other imgs i img :
  imgs !! i = Some img → ¬ P img → map (updateWhere P upd) imgs !! i = Some img.
Proof.
  intros Hi Hn. rewrite list_lookup_fmap, Hi. cbn.
  unfold updateWhere. by rewrite decide_False.
Qed.

Lemma updateWhere_lookup_hit imgs i img :
  imgs !! i = Some img → P img → map (updateWhere P upd) imgs !! i = Some (upd img).
Proof.
  intros Hi Hp. rewrite list_lookup_fmap, Hi. cbn.
  unfold updateWhere. by rewrite decide_True.
Qed.

Lemma updateWhere_elem imgs img' :
  img' ∈ map (updateWhere P upd) imgs →
  ∃ img, img ∈ imgs ∧ ((P img ∧ img' = upd img) ∨ (¬ P img ∧ img' = img)).
Proof.
  intros (img & -> & Hin)%list_elem_of_fmap. exists img. split; [done|].
  unfold updateWhere. destruct (decide (P img)); auto.
Qed.

End UpdateById.

(** * The images after each history handler *)

Lemma images_addImageToHistory (f : File) (imageId : string) (st : AppState) :
  images (addImageToHistory f imageId st)
    = map (updateWhere (λ img, img_id img = imageId) (pushSnapshot f)) (images st).
Proof. unfold addImageToHistory. by case_decide. Qed.

Lemma images_handleUndo (st : AppState) :
  images (handleUndo st)
    = if canUndo st && JS.truthy_opt (activeImageId st)
      then map (updateWhere (λ img, Some (img_id img) = activeImageId st)
                  (λ img, withHistoryIndex (historyIndex img - 1) img)) (images st)
      else images st.
Proof. unfold handleUndo. by destruct (canUndo st && _). Qed.

Lemma images_handleRedo (st : AppState) :
  images (handleRedo st)
    = if canRedo st && JS.truthy_opt (activeImageId st)
      then map (updateWhere (λ img, Some (img_id img) = activeImageId st)
                  (λ img, withHistoryIndex (historyIndex img + 1) img)) (images st)
      else images st.
Proof. unfold handleRedo. by destruct (canRedo st && _). Qed.

Lemma images_handleReset (st : AppState) :
  images (handleReset st)
    = map (updateWhere (λ img, Some (img_id img) = activeImageId st) resetImage) (images st).
Proof. done. Qed.

Lemma images_handleSelectImage (id : string) (st : AppState) :
  images (handleSelectImage id st) = images st.
Proof. unfold handleSelectImage. by case_decide. Qed.

Lemma activeImageState_spec (st : AppState) (img : ImageState) :
  activeImageState st = Some img →
  img ∈ images st ∧ Some (img_id img) = activeImageId st.
Proof.
  unfold activeImageState, findImage. intros H.
  destruct (list_find _ _) as [[i x]|] eqn:Hfind; [|done].
  cbn in H. injection H as ->.
  apply list_find_Some in Hfind as (Hi & Hp & _).
  split; [by eapply list_elem_of_lookup_2|done].
Qed.

(** * Preservation of the History Stack invariant *)

Section InvariantById.

Variable P : ImageState → Prop.
Context `{!∀ img, Decision (P img)}.
Variable upd : ImageState → ImageState.
Variable imgs : list ImageState.

Hypothesis P_by_id : ∀ a b, img_id a = img_id b → P a → P b.
Hypothesis upd_id : ∀ a, img_id (upd a) = img_id a.
Hypothesis upd_valid : ∀ a, a ∈ imgs → P a → historyValid (upd a).
Hypothesis upd_shape : ∀ a b, sameShape a b → sameShape (upd a) (upd b).

Lemma stacksInv_updateWhere :
  stacksInv imgs → stacksInv (map (updateWhere P upd) imgs).
Proof using All.
  intros [Hvalid Hcoh]. split.
  - intros a' (a & Ha & [[Hp ->]|[Hn ->]])%updateWhere_elem; auto.
  - intros a' b' (a & Ha & Hcase_a)%updateWhere_elem
                 (b & Hb & Hcase_b)%updateWhere_elem Hid.
    destruct Hcase_a as [[Hpa ->]|[Hna ->]], Hcase_b as [[Hpb ->]|[Hnb ->]];
      rewrite ?upd_id in Hid.
    + apply upd_shape. by apply Hcoh.
    + destruct Hnb. by apply (P_by_id a).
    + destruct Hna. by apply (P_by_id b).
    + by apply Hcoh.
Qed.

End InvariantById.

Lemma stacksInv_addImageToHistory (f : File) (imageId : string) (st : AppState) :
  stacksInv (images st) → stacksInv (images (addImageToHistory f imageId st)).
Proof.
  intros Hinv. rewrite images_addImageToHistory.
  apply stacksInv_updateWhere; [|done| |by apply pushSnapshot_shape|done].
  - intros a b Hid. cbn. congruence.
  - intros a _ _. apply pushSnapshot_valid.
Qed.

Lemma canUndo_true (st : AppState) :
  canUndo st = true →
  ∃ first, activeImageState st = Some first ∧ 0 < historyIndex first.
Proof.
  unfold canUndo. destruct (activeImageState st) as [first|]; cbn; [|done].
  intros H%Z.ltb_lt. eauto.
Qed.

Lemma stacksInv_handleUndo (st : AppState) :
  stacksInv (images st) → stacksInv (images (handleUndo st)).
Proof.
  intros Hinv. rewrite images_handleUndo.
  destruct (canUndo st && _) eqn:Hguard; [|done].
  apply andb_true_iff in Hguard as [(first & Hact & Hpos)%canUndo_true _].
  apply activeImageState_spec in Hact as [Hin Hfirst].
  apply stacksInv_updateWhere; [|done| | |done].
  - intros a b Hid. cbn. congruence.
  - intros a Ha Hpa. destruct Hinv as [Hvalid Hcoh].
    assert (Hs : sameShape a first) by (apply Hcoh; [done|done|congruence]).
    destruct Hs as [_ Hidx]. specialize (Hvalid a Ha).
    unfold historyValid in *. cbn. lia.
  - intros a b [Hlen Hidx]. unfold sameShape. cbn. split; [done|lia].
Qed.

Lemma stacksInv_handleRedo (st : AppState) :
  stacksInv (images st) → stacksInv (images (handleRedo st)).
Proof.
  intros Hinv. rewrite images_handleRedo.
  destruct (canRedo st && _) eqn:Hguard; [|done].
  apply andb_true_iff in Hguard as [Hredo _].
  unfold canRedo in Hredo.
  destruct (activeImageState st) as [first|] eqn:Hact; [|done].
  apply Z.ltb_lt in Hredo.
  apply activeImageState_spec in Hact as [Hin Hfirst].
  apply stacksInv_updateWhere; [|done| | |done].
  - intros a b Hid. cbn. congruence.
  - intros a Ha Hpa. destruct Hinv as [Hvalid Hcoh].
    assert (Hs : sameShape a first) by (apply Hcoh; [done|done|congruence]).
    destruct Hs as [Hlen Hidx]. specialize (Hvalid a Ha).
    unfold historyValid in *. cbn. lia.
  - intros a b [Hlen Hidx]. unfold sameShape. cbn. split; [done|lia].
Qed.

Lemma stacksInv_handleReset (st : AppState) :
  stacksInv (images st) → stacksInv (images (handleReset st)).
Proof.
  intros Hinv. rewrite images_handleReset.
  apply stacksInv_updateWhere; [|done| | |done].
  - intros a b Hid. cbn. congruence.
  - intros a _ _. unfold historyValid. cbn. lia.
  - intros a b _. by unfold sameShape.
Qed.

Lemma stacksInv_applyOp (op : HistoryOp) (st : AppState) :
  stacksInv (images st) → stacksInv (images (applyOp op st)).
Proof.
  destruct op; cbn.
  - by rewrite images_handleSelectImage.
  - apply stacksInv_addImageToHistory.
  - apply stacksInv_handleUndo.
  - apply stacksInv_handleRedo.
  - apply stacksInv_handleReset.
Qed.

Lemma stacksInv_runOps (ops : list HistoryOp) (st : AppState) :
  stacksInv (images st) → stacksInv (images (runOps ops st)).
Proof.
  revert st. induction ops as [|op ops IH]; intros st Hinv; [done|].
  cbn. apply IH. by apply stacksInv_applyOp.
Qed.

Lemma images_handleImageUploads (files : list Upload) (st : AppState) :
  images (handleImageUploads files st) = images st ++ map newImageOf files.
Proof.
  unfold handleImageUploads.
  destruct (img_id <$> head (map newImageOf files)) as [first|]; [|done].
  destruct (JS.truthy first); [|done].
  by destruct (negb _).
Qed.

Lemma stacksInv_fresh_uploads (files : list Upload) :
  stacksInv (images (handleImageUploads files initialState)).
Proof.
  rewrite images_handleImageUploads. cbn. split.
  - intros img (u & -> & _)%list_elem_of_fmap. unfold historyValid. cbn. lia.
  - intros a b (u & -> & _)%list_elem_of_fmap (v & -> & _)%list_elem_of_fmap _.
    by unfold sameShape.
Qed.

Lemma handleUndo_at_bottom (st : AppState) (img : ImageState) :
  activeImageState st = Some img → historyIndex img = 0 → handleUndo st = st.
Proof.
  intros Hact Hidx. unfold handleUndo, canUndo. by rewrite Hact; cbn; rewrite Hidx.
Qed.

Lemma handleRedo_at_top (st : AppState) (img : ImageState) :
  activeImageState st = Some img →
  historyIndex img = Z.of_nat (length (history img)) - 1 →
  handleRedo st = st.
Proof.
  intros Hact Hidx. unfold handleRedo, canRedo. rewrite Hact.
  by rewrite Hidx, Z.ltb_irrefl.
Qed.

(** * Deleting an image *)

Lemma images_handleDeleteImage (idToDelete : string) (st : AppState) :
  images (handleDeleteImage idToDelete st)
    = filter (λ img, img_id img ≠ idToDelete) (images st).
Proof. unfold handleDeleteImage. by case_decide. Qed.

Lemma activeImageId_handleDeleteImage (idToDelete : string) (st : AppState) :
  activeImageId (handleDeleteImage idToDelete st)
    = if decide (activeImageId st = Some idToDelete)
      then img_id <$> head (images (handleDeleteImage idToDelete st))
      else activeImageId st.
Proof. unfold handleDeleteImage. by case_decide. Qed.

Lemma selectedImageIds_handleDeleteImage (idToDelete : string) (st : AppState) :
  selectedImageIds (handleDeleteImage idToDelete st)
    = selectedImageIds st ∖ {[ idToDelete ]}.
Proof. unfold handleDeleteImage. by case_decide. Qed.

Lemma id_survives_filter (x idToDelete : string) (imgs : list ImageState) :
  x ∈ img_id <$> imgs → x ≠ idToDelete →
  x ∈ img_id <$> filter (λ img, img_id img ≠ idToDelete) imgs.
Proof.
  intros (img & -> & Hin)%list_elem_of_fmap Hne.
  apply list_elem_of_fmap. exists img. split; [done|].
  by apply list_elem_of_filter.
Qed.

Lemma head_id_elem (imgs : list ImageState) (a : string) :
  img_id <$> head imgs = Some a → a ∈ img_id <$> imgs.
Proof.
  destruct imgs as [|img rest]; cbn; [done|].
  intros [= <-]. apply list_elem_of_here.
Qed.

(** * The gather loop of a batch *)

Lemma failedTargets_fulfilled t ts url rest :
  failedTargets (t :: ts) (Fulfilled url :: rest) = failedTargets ts rest.
Proof. unfold failedTargets. cbn [zip zip_with]. by rewrite filter_cons_False. Qed.

Lemma failedTargets_rejected t ts reason rest :
  failedTargets (t :: ts) (Rejected reason :: rest) = t :: failedTargets ts rest.
Proof. unfold failedTargets. cbn [zip zip_with]. by rewrite filter_cons_True. Qed.

Lemma applyNewImageFiles_empty (imgs : list ImageState) :
  map (applyNewImageFiles ∅) imgs = imgs.
Proof.
  induction imgs as [|img imgs IH]; [done|].
  cbn. rewrite IH. unfold applyNewImageFiles. by rewrite lookup_empty.
Qed.

Section Gather.

Variable atob : string → Exc string.
Variable operationName : string.
Variable targets : list ImageState.

Lemma collectResults_ok (results : list Settled) :
  ∀ (index : nat) (m : gmap string File) (failed : list string),
    length results = length (drop index targets) →
    NoDup (img_id <$> drop index targets) →
    resultsDecode atob operationName (drop index targets) results →
    ∃ m',
      collectResults atob operationName targets results index m failed
        = Ok (m', failed ++ (img_name <$> failedTargets (drop index targets) results)) ∧
      (∀ k t url,
         drop index targets !! k = Some t → results !! k = Some (Fulfilled url) →
         ∃ f, dataURLtoFile atob url (operationName +:+ "-" +:+ img_name t) = Ok f ∧
              m' !! img_id t = Some f) ∧
      (∀ x,
         (∀ k t url, drop index targets !! k = Some t →
                     results !! k = Some (Fulfilled url) → img_id t ≠ x) →
         m' !! x = m !! x).
Proof.
  induction results as [|result rest IH]; intros index m failed Hlen Hnodup Hdec.
  - exists m. destruct (drop index targets) as [|t ts]; [|done].
    cbn. rewrite app_nil_r. split; [done|]. split; [|done].
    intros k t url Hk. by rewrite lookup_nil in Hk.
  - destruct (drop index targets) as [|t ts] eqn:Hdrop; [done|].
    assert (Hidx : targets !! index = Some t).
    { rewrite <- (Nat.add_0_r index), <- lookup_drop. by rewrite Hdrop. }
    assert (Hnext : drop (S index) targets = ts).
    { apply drop_S in Hidx. rewrite Hdrop in Hidx. by injection Hidx. }
    cbn [collectResults]. rewrite Hidx.
    cbn in Hlen. injection Hlen as Hlen.
    rewrite fmap_cons in Hnodup. apply NoDup_cons in Hnodup as [Hfresh Hnodup].
    assert (Hdec' : resultsDecode atob operationName (drop (S index) targets) rest).
    { rewrite Hnext. intros k t' url Hk Hr. by apply (Hdec (S k) t' url). }
    rewrite <- Hnext in Hlen, Hnodup.
    destruct result as [url|reason].
    + destruct (Hdec 0%nat t url eq_refl eq_refl) as [f Hf]. rewrite Hf.
      destruct (IH (S index) (<[img_id t := f]> m) failed Hlen Hnodup Hdec')
        as (m' & Hrun & Hhit & Hmiss).
      exists m'. rewrite Hrun, failedTargets_fulfilled, Hnext.
      split; [done|]. split.
      * intros [|k] t' url' Hk Hr.
        -- cbn in Hk, Hr. injection Hk as <-. injection Hr as <-.
           exists f. split; [done|].
           rewrite Hmiss; [apply lookup_insert_eq|].
           intros k t' url' Hk Hr Heq. apply Hfresh.
           rewrite Hnext in Hk. apply list_elem_of_fmap. exists t'.
           split; [done|]. by eapply list_elem_of_lookup_2.
        -- cbn in Hk, Hr. rewrite <- Hnext in Hk. by apply (Hhit k).
      * intros x Hx. rewrite Hmiss.
        -- apply lookup_insert_ne. by apply (Hx 0%nat t url).
        -- intros k t' url' Hk Hr. rewrite Hnext in Hk. by apply (Hx (S k) t' url').
    + destruct (IH (S index) m (failed ++ [img_name t]) Hlen Hnodup Hdec')
        as (m' & Hrun & Hhit & Hmiss).
      exists m'. rewrite Hrun, failedTargets_rejected, Hnext.
      split; [by rewrite fmap_cons, <- app_assoc|]. split.
      * intros [|k] t' url' Hk Hr; [done|].
        cbn in Hk, Hr. rewrite <- Hnext in Hk. by apply (Hhit k).
      * intros x Hx. apply Hmiss.
        intros k t' url' Hk Hr. rewrite Hnext in Hk. by apply (Hx (S k) t' url').
Qed.

End Gather.

Lemma handleBatchOperation_begin_multi (operationName : string) (st st1 : AppState)
    (targets : list ImageState) :
  handleBatchOperation_begin operationName st = (st1, MultiDispatch targets) →
  targets = filter (λ img, img_id img ∈ selectedImageIds st) (images st) ∧
  (1 < length targets)%nat ∧
  st1 = loadingState st.
Proof.
  unfold handleBatchOperation_begin.
  destruct (filter _ (images st)) as [|t [|t' ts]]; intros [= <- <-]; cbn.
  repeat split; lia.
Qed.

Lemma NoDup_ids_filter (P : ImageState → Prop) `{!∀ img, Decision (P img)}
    (imgs : list ImageState) :
  NoDup (img_id <$> imgs) → NoDup (img_id <$> filter P imgs).
Proof.
  induction imgs as [|img imgs IH]; [done|].
  rewrite fmap_cons. intros [Hfresh Hrest]%NoDup_cons.
  rewrite filter_cons. destruct (decide (P img)); [|by apply IH].
  rewrite fmap_cons. apply NoDup_cons. split; [|by apply IH].
  intros (x & Hid & Hx%list_elem_of_filter)%list_elem_of_fmap.
  apply Hfresh. apply list_elem_of_fmap. exists x. by destruct Hx.
Qed.

Lemma handleBatchOperation_settleBatch_fields
    (atob : string → Exc string) (operationName : string)
    (targets : list ImageState) (results : list Settled) (st : AppState)
    (m : gmap string File) (failed : list string) :
  collectResults atob operationName targets results 0 ∅ [] = Ok (m, failed) →
  ∃ st',
    handleBatchOperation_settleBatch atob operationName targets results st = Ok st' ∧
    images st' = map (applyNewImageFiles m) (images st) ∧
    error st' = match failed with
                | [] => error st
                | _ => Some (batchErrorMessage operationName failed)
                end ∧
    isLoading st' = false ∧
    activeImageId st' = activeImageId st ∧
    selectedImageIds st' = selectedImageIds st ∧
    previewImage st' = previewImage st.
Proof.
  intros Hrun. unfold handleBatchOperation_settleBatch. rewrite Hrun.
  generalize (batchErrorMessage operationName failed). intros msg.
  set (st1 := if bool_decide (0 < size m)%nat
              then setImages (map (applyNewImageFiles m)) st else st).
  assert (Hst1 : images st1 = map (applyNewImageFiles m) (images st) ∧
                 error st1 = error st ∧
                 activeImageId st1 = activeImageId st ∧
                 selectedImageIds st1 = selectedImageIds st ∧
                 previewImage st1 = previewImage st).
  { unfold st1. case_bool_decide as Hsize; [done|].
    assert (m = ∅) as -> by (apply map_size_empty_iff; lia).
    by rewrite applyNewImageFiles_empty. }
  clearbody st1. destruct Hst1 as (Himages & Herror & Hactive & Hselected & Hpreview).
  eexists. split; [reflexivity|].
  destruct failed as [|name names]; cbn [length]; case_bool_decide; try lia;
    cbn; by rewrite ?Himages, ?Herror, ?Hactive, ?Hselected, ?Hpreview.
Qed.

Lemma elem_of_failedTargets (targets : list ImageState) (results : list Settled)
    (t : ImageState) :
  t ∈ failedTargets targets results ↔
  ∃ k reason, targets !! k = Some t ∧ results !! k = Some (Rejected reason).
Proof.
  unfold failedTargets. rewrite list_elem_of_fmap. split.
  - intros ([t' r] & -> & [Hrej Hin]%list_elem_of_filter).
    apply elem_of_lookup_zip_with in Hin as (k & y & z & [= <- <-] & Hy & Hz).
    cbn in Hrej. destruct r as [url|reason]; [done|]. by exists k, reason.
  - intros (k & reason & Ht & Hr). exists (t, Rejected reason).
    split; [done|]. apply list_elem_of_filter. split; [done|].
    apply elem_of_lookup_zip_with. by exists k, t, (Rejected reason).
Qed.

(** * The preview gate *)

Lemma handleGenerate_begin_call (st st1 : AppState) (call : GenerateCall) :
  handleGenerate_begin st = (st1, Some call) →
  currentImage st = Some (call_image call) ∧
  JS.truthy_opt (activeImageId st) = true ∧
  st1 = loadingState st ∧
  editHotspot st = Some (call_hotspot call).
Proof.
  unfold handleGenerate_begin.
  destruct (currentImage st) as [image|]; [|done].
  destruct (JS.truthy_opt (activeImageId st)); [|done].
  destruct (JS.truthy (JS.trim (prompt st))); [|done].
  destruct (editHotspot st) as [hotspot|]; [|done].
  by intros [= <- <-].
Qed.

Lemma previewImage_handleGenerate_settle
    (atob : string → Exc string) (now : N) (url : string) (f : File) (st : AppState) :
  dataURLtoFile atob url ("edited-" +:+ pretty now +:+ ".png") = Ok f →
  previewImage (handleGenerate_settle atob now (Fulfilled url) st) = Some f.
Proof. intros Hdecode. unfold handleGenerate_settle, awaitedFile. by rewrite Hdecode. Qed.

Lemma handleAcceptPreview_active (st : AppState) (f : File) (active : string) :
  previewImage st = Some f →
  activeImageId st = Some active →
  JS.truthy active = true →
  handleAcceptPreview st = setPreviewImage None (addImageToHistory f active st) ∧
  images (handleAcceptPreview st)
    = map (updateWhere (λ img, img_id img = active) (pushSnapshot f)) (images st).
Proof.
  intros Hpreview Hactive Htruthy. unfold handleAcceptPreview.
  rewrite Hpreview, Hactive, Htruthy. split; [done|].
  cbn. apply images_addImageToHistory.
Qed.

(** * The references of the collection *)

Lemma handleImageUploads_selection (u : Upload) (rest : list Upload) (st : AppState) :
  selectedImageIds (handleImageUploads (u :: rest) st)
    = selectedImageIds st ∪ {[ img_id (newImageOf u) ]}.
Proof.
  unfold handleImageUploads. cbn [map head fmap option_fmap option_map].
  rewrite newImageOf_id_truthy. by destruct (negb _).
Qed.

Lemma ids_updateWhere (P : ImageState → Prop) `{!∀ img, Decision (P img)}
    (upd : ImageState → ImageState) (imgs : list ImageState) :
  (∀ img, img_id (upd img) = img_id img) →
  img_id <$> map (updateWhere P upd) imgs = img_id <$> imgs.
Proof.
  intros Hupd. induction imgs as [|img imgs IH]; [done|].
  cbn. f_equal; [|exact IH].
  unfold updateWhere. by destruct (decide (P img)).
Qed.

Lemma ids_applyOp (op : HistoryOp) (st : AppState) :
  img_id <$> images (applyOp op st) = img_id <$> images st.
Proof.
  destruct op; cbn [applyOp].
  - by rewrite images_handleSelectImage.
  - rewrite images_addImageToHistory. by apply ids_updateWhere.
  - rewrite images_handleUndo. destruct (canUndo st && _); [|done].
    by apply ids_updateWhere.
  - rewrite images_handleRedo. destruct (canRedo st && _); [|done].
    by apply ids_updateWhere.
  - rewrite images_handleReset. by apply ids_updateWhere.
Qed.

Lemma references_addImageToHistory (f : File) (imageId : string) (st : AppState) :
  activeImageId (addImageToHistory f imageId st) = activeImageId st ∧
  selectedImageIds (addImageToHistory f imageId st) = selectedImageIds st.
Proof. unfold addImageToHistory. by case_decide. Qed.

Lemma references_applyOp (op : HistoryOp) (st : AppState) :
  (∀ id, op ≠ OpSelect id) →
  activeImageId (applyOp op st) = activeImageId st ∧
  selectedImageIds (applyOp op st) = selectedImageIds st.
Proof.
  intros Hop. destruct op as [id| | | |]; cbn [applyOp].
  - by destruct (Hop id).
  - apply references_addImageToHistory.
  - unfold handleUndo. by destruct (canUndo st && _).
  - unfold handleRedo. by destruct (canRedo st && _).
  - done.
Qed.

Lemma referencesPresent_same (st st' : AppState) :
  img_id <$> images st' = img_id <$> images st →
  activeImageId st' = activeImageId st →
  selectedImageIds st' = selectedImageIds st →
  referencesPresent st → referencesPresent st'.
Proof. unfold referencesPresent. by intros -> -> ->. Qed.

Lemma referencesPresent_handleSelectImage (id : string) (st : AppState) :
  id ∈ img_id <$> images st →
  referencesPresent st → referencesPresent (handleSelectImage id st).
Proof.
  intros Hid [Hactive Hsel]. unfold handleSelectImage.
  case_decide; [done|]. split; [|done].
  by intros a [= <-].
Qed.

Lemma referencesPresent_handleImageUploads (files : list Upload) (st : AppState) :
  referencesPresent st → referencesPresent (handleImageUploads files st).
Proof.
  intros [Hactive Hsel]. destruct files as [|u rest].
  { split; [intros a Ha|intros x Hx];
      rewrite images_handleImageUploads; cbn [map]; rewrite app_nil_r;
      [by apply Hactive|by apply Hsel]. }
  split.
  - intros a. rewrite images_handleImageUploads, fmap_app.
    unfold handleImageUploads. cbn [map head fmap option_fmap option_map].
    rewrite newImageOf_id_truthy.
    destruct (negb _); cbn.
    + intros [= <-]. apply elem_of_app. right. apply list_elem_of_here.
    + intros Ha. apply elem_of_app. left. by apply Hactive.
  - intros x. rewrite images_handleImageUploads, fmap_app.
    rewrite (handleImageUploads_selection u rest st).
    intros [Hx|Hx]%elem_of_union; apply elem_of_app.
    + left. by apply Hsel.
    + right. apply elem_of_singleton in Hx as ->. apply list_elem_of_here.
Qed.

Lemma referencesPresent_handleDeleteImage (idToDelete : string) (st : AppState) :
  referencesPresent st → referencesPresent (handleDeleteImage idToDelete st).
Proof.
  intros [Hactive Hsel]. split.
  - intros a. rewrite activeImageId_handleDeleteImage.
    destruct (decide (activeImageId st = Some idToDelete)) as [Hdel|Hkeep].
    + apply head_id_elem.
    + intros Ha. rewrite images_handleDeleteImage.
      apply id_survives_filter; [by apply Hactive|congruence].
  - intros x. rewrite selectedImageIds_handleDeleteImage, images_handleDeleteImage.
    intros [Hx Hne]%elem_of_difference.
    apply id_survives_filter; [by apply Hsel|].
    intros ->. by apply Hne, elem_of_singleton.
Qed.

Lemma handleAcceptPreview_cases (st : AppState) :
  handleAcceptPreview st = setPreviewImage None st ∨
  ∃ file imageId,
    handleAcceptPreview st = setPreviewImage None (addImageToHistory file imageId st).
Proof.
  unfold handleAcceptPreview.
  destruct (previewImage st) as [file|]; [|by left].
  destruct (activeImageId st) as [imageId|]; [|by left].
  destruct (JS.truthy imageId); [right|by left].
  by exists file, imageId.
Qed.

Lemma referencesPresent_handleAcceptPreview (st : AppState) :
  referencesPresent st → referencesPresent (handleAcceptPreview st).
Proof.
  destruct (handleAcceptPreview_cases st) as [->|(file & imageId & ->)]; [done|].
  apply referencesPresent_same; cbn.
  - apply (ids_applyOp (OpAppend file imageId)).
  - apply references_addImageToHistory.
  - apply references_addImageToHistory.
Qed.

Lemma referencesPresent_applyEvent (ev : CollectionEvent) (st : AppState) :
  eventEnabled ev st → referencesPresent st → referencesPresent (applyEvent ev st).
Proof.
  destruct ev as [files|id|id|id| | | | | |op]; cbn; intros Hen Href.
  - destruct files; [done|]. by apply referencesPresent_handleImageUploads.
  - by apply referencesPresent_handleDeleteImage.
  - by apply referencesPresent_handleSelectImage.
  - destruct Href as [Hactive Hsel]. split; [done|]. cbn.
    intros x. case_decide.
    + intros [Hx _]%elem_of_difference. by apply Hsel.
    + intros [Hx|Hx]%elem_of_union; [by apply Hsel|].
      by apply elem_of_singleton in Hx as ->.
  - destruct Href as [Hactive _]. split; [done|]. cbn.
    intros x Hx. by apply elem_of_list_to_set in Hx.
  - destruct Href as [Hactive _]. split; [done|]. cbn.
    intros x Hx. destruct (not_elem_of_empty x Hx).
  - split; cbn; [done|]. intros x Hx. destruct (not_elem_of_empty x Hx).
  - by apply referencesPresent_handleAcceptPreview.
  - done.
  - destruct op as [id| | | |]; [by apply referencesPresent_handleSelectImage|..];
      (eapply referencesPresent_same; [apply ids_applyOp|apply references_applyOp..|done];
       done).
Qed.

Lemma referencesPresent_reachable (st : AppState) :
  reachable st → referencesPresent st.
Proof.
  induction 1 as [|ev st Hreach IH Hen].
  - split; [done|]. intros x Hx. destruct (not_elem_of_empty x Hx).
  - by apply referencesPresent_applyEvent.
Qed.

Lemma collectResults_throws (atob : string → Exc string) (operationName : string)
    (targets : list ImageState) (t : ImageState) (url : string) (e : Thrown) :
  dataURLtoFile atob url (operationName +:+ "-" +:+ img_name t) = Throw e →
  ∀ (results : list Settled) (index : nat) (m : gmap string File)
    (failed : list string) (k : nat),
    targets !! (index + k)%nat = Some t →
    results !! k = Some (Fulfilled url) →
    ∃ e', collectResults atob operationName targets results index m failed = Throw e'.
Proof.
  intros Hdecode. induction results as [|result rest IH];
    intros index m failed k Ht Hr; [done|].
  cbn [collectResults]. destruct k as [|k].
  - rewrite Nat.add_0_r in Ht. cbn in Hr. injection Hr as ->.
    rewrite Ht, Hdecode. by eexists.
  - assert (Hsome : is_Some (targets !! index)).
    { apply lookup_lt_is_Some. apply lookup_lt_Some in Ht. lia. }
    destruct Hsome as [x Hx]. rewrite Hx.
    replace (index + S k)%nat with (S index + k)%nat in Ht by lia. cbn in Hr.
    destruct result as [value|reason].
    + destruct (dataURLtoFile atob value _) as [f|e0]; [|by eexists].
      by apply (IH (S index) _ _ k).
    + by apply (IH (S index) _ _ k).
Qed.

(** * Finding the active entry *)

Lemma findImage_cons (a : option string) (img : ImageState) (imgs : list ImageState) :
  findImage a (img :: imgs)
    = if decide (Some (img_id img) = a) then Some img else findImage a imgs.
Proof.
  unfold findImage. cbn. destruct (decide (Some (img_id img) = a)); [done|].
  by destruct (list_find _ imgs) as [[i x]|].
Qed.

Lemma findImage_Some (a : option string) (imgs : list ImageState) (img : ImageState) :
  findImage a imgs = Some img → img ∈ imgs ∧ Some (img_id img) = a.
Proof.
  induction imgs as [|x imgs IH]; [done|].
  rewrite findImage_cons. destruct (decide (Some (img_id x) = a)) as [Hx|Hx].
  - intros [= <-]. split; [apply list_elem_of_here|done].
  - intros [Hin Hid]%IH. split; [by apply list_elem_of_further|done].
Qed.

Lemma findImage_present (a : string) (imgs : list ImageState) :
  a ∈ img_id <$> imgs → is_Some (findImage (Some a) imgs).
Proof.
  induction imgs as [|x imgs IH]; [by intros ?%elem_of_nil|].
  rewrite fmap_cons, findImage_cons. intros Hin.
  destruct (decide (Some (img_id x) = Some a)) as [Hx|Hx]; [by eexists|].
  apply IH. apply elem_of_cons in Hin as [->|Hin]; [by destruct Hx|done].
Qed.

Lemma findImage_map (a : option string) (g : ImageState → ImageState)
    (imgs : list ImageState) :
  (∀ img, img_id (g img) = img_id img) →
  findImage a (map g imgs) = g <$> findImage a imgs.
Proof.
  intros Hg. induction imgs as [|x imgs IH]; [done|].
  cbn [map]. rewrite !findImage_cons, Hg.
  by destruct (decide (Some (img_id x) = a)).
Qed.

Lemma updateWhere_id (P : ImageState → Prop) `{!∀ img, Decision (P img)}
    (upd : ImageState → ImageState) :
  (∀ img, img_id (upd img) = img_id img) →
  ∀ img, img_id (updateWhere P upd img) = img_id img.
Proof. intros Hupd img. unfold updateWhere. by destruct (decide (P img)). Qed.

Lemma findImage_filter_other (a : option string) (idToDelete : string)
    (imgs : list ImageState) :
  a ≠ Some idToDelete →
  findImage a (filter (λ img, img_id img ≠ idToDelete) imgs) = findImage a imgs.
Proof.
  intros Hne. induction imgs as [|x imgs IH]; [done|].
  rewrite filter_cons, findImage_cons.
  destruct (decide (img_id x ≠ idToDelete)) as [Hkeep|Hdrop].
  - rewrite findImage_cons. by destruct (decide (Some (img_id x) = a)).
  - rewrite decide_False; [done|].
    intros <-. apply Hdrop. intros Heq. apply Hne. by rewrite Heq.
Qed.

(** The active entry after the handlers that rebuild entries by id. *)
Lemma activeImageState_handleReset (st : AppState) :
  activeImageState (handleReset st) = resetImage <$> activeImageState st.
Proof.
  unfold activeImageState. rewrite images_handleReset.
  change (activeImageId (handleReset st)) with (activeImageId st).
  rewrite findImage_map by (by apply updateWhere_id).
  destruct (findImage _ _) as [img|] eqn:Hfind; [|done].
  apply findImage_Some in Hfind as [_ Hid]. cbn.
  unfold updateWhere. by rewrite decide_True.
Qed.

Lemma activeImageId_handleUndo (st : AppState) :
  activeImageId (handleUndo st) = activeImageId st.
Proof. unfold handleUndo. by destruct (canUndo st && _). Qed.

Lemma activeImageId_handleRedo (st : AppState) :
  activeImageId (handleRedo st) = activeImageId st.
Proof. unfold handleRedo. by destruct (canRedo st && _). Qed.

Lemma activeImageState_handleUndo (st : AppState) (img : ImageState) :
  activeImageState st = Some img →
  canUndo st && JS.truthy_opt (activeImageId st) = true →
  activeImageState (handleUndo st)
    = Some (withHistoryIndex (historyIndex img - 1) img).
Proof.
  intros Hact Hguard. unfold activeImageState in *.
  rewrite activeImageId_handleUndo, images_handleUndo, Hguard.
  rewrite findImage_map by (by apply updateWhere_id). rewrite Hact. cbn.
  apply findImage_Some in Hact as [_ Hid].
  unfold updateWhere. by rewrite decide_True.
Qed.

Lemma activeImageState_handleRedo (st : AppState) (img : ImageState) :
  activeImageState st = Some img →
  canRedo st && JS.truthy_opt (activeImageId st) = true →
  activeImageState (handleRedo st)
    = Some (withHistoryIndex (historyIndex img + 1) img).
Proof.
  intros Hact Hguard. unfold activeImageState in *.
  rewrite activeImageId_handleRedo, images_handleRedo, Hguard.
  rewrite findImage_map by (by apply updateWhere_id). rewrite Hact. cbn.
  apply findImage_Some in Hact as [_ Hid].
  unfold updateWhere. by rewrite decide_True.
Qed.

Lemma activeImageState_addImageToHistory (f : File) (a : string) (st : AppState)
    (img : ImageState) :
  activeImageId st = Some a →
  activeImageState st = Some img →
  activeImageState (addImageToHistory f a st) = Some (pushSnapshot f img).
Proof.
  intros Ha Hact. unfold activeImageState in *.
  rewrite (proj1 (references_addImageToHistory f a st)), images_addImageToHistory.
  rewrite findImage_map by (by apply updateWhere_id). rewrite Hact. cbn.
  apply findImage_Some in Hact as [_ Hid]. rewrite Ha in Hid.
  unfold updateWhere. rewrite decide_True; [done|congruence].
Qed.

Lemma withHistoryIndex_same (img : ImageState) (i : Z) :
  i = historyIndex img → withHistoryIndex i img = img.
Proof. intros ->. by destruct img. Qed.

Lemma map_updateWhere_inverse (P : ImageState → Prop) `{!∀ img, Decision (P img)}
    (f g : ImageState → ImageState) (imgs : list ImageState) :
  (∀ img, img_id (f img) = img_id img) →
  (∀ a b, img_id a = img_id b → P a → P b) →
  (∀ img, g (f img) = img) →
  map (updateWhere P g) (map (updateWhere P f) imgs) = imgs.
Proof.
  intros Hid HP Hinv. induction imgs as [|x imgs IH]; [done|].
  cbn [map]. rewrite IH. f_equal.
  unfold updateWhere. destruct (decide (P x)) as [Hx|Hx].
  - rewrite decide_True; [apply Hinv|]. by apply (HP x); [rewrite Hid|].
  - by rewrite decide_False.
Qed.

(** The current file of an entry that just received a snapshot is that
    snapshot, whatever the entry was. *)
Lemma pushSnapshot_current (f : File) (img : ImageState) :
  JS.index (history (pushSnapshot f img)) (historyIndex (pushSnapshot f img)) = Some f.
Proof.
  cbn. unfold JS.index. rewrite length_app. cbn [length].
  destruct (_ <? 0) eqn:Hneg; [apply Z.ltb_lt in Hneg; lia|].
  rewrite lookup_app_r by lia.
  replace (_ - _)%nat with 0%nat by lia. done.
Qed.

Lemma pushSnapshot_previous (f : File) (img : ImageState) :
  historyValid img →
  JS.index (history (pushSnapshot f img)) (historyIndex img)
    = JS.index (history img) (historyIndex img).
Proof.
  intros [Hlo Hhi]. rewrite pushSnapshot_history by done.
  unfold JS.index. destruct (_ <? 0) eqn:Hneg; [apply Z.ltb_lt in Hneg; lia|].
  rewrite lookup_app_l by (rewrite length_take; lia).
  apply lookup_take_lt. lia.
Qed.

(** * Selection and dispatch *)

Lemma toggle_twice (id : string) (X : gset string) :
  let toggle := λ ids : gset string,
    if decide (id ∈ ids) then ids ∖ {[ id ]} else ids ∪ {[ id ]} in
  toggle (toggle X) = X.
Proof.
  cbn. destruct (decide (id ∈ X)) as [Hin|Hout].
  - rewrite decide_False.
    + apply set_eq. intros y.
      rewrite elem_of_union, elem_of_difference, elem_of_singleton.
      destruct (decide (y = id)) as [->|Hne]; tauto.
    + rewrite elem_of_difference, elem_of_singleton. tauto.
  - rewrite decide_True.
    + apply set_eq. intros y.
      rewrite elem_of_difference, elem_of_union, elem_of_singleton.
      destruct (decide (y = id)) as [->|Hne]; tauto.
    + rewrite elem_of_union, elem_of_singleton. tauto.
Qed.

Lemma filter_all (P : ImageState → Prop) `{!∀ img, Decision (P img)}
    (imgs : list ImageState) :
  (∀ img, img ∈ imgs → P img) → filter P imgs = imgs.
Proof.
  induction imgs as [|x imgs IH]; [done|]. intros Hall.
  rewrite filter_cons_True by (apply Hall, list_elem_of_here).
  f_equal. apply IH. intros img Hin. by apply Hall, list_elem_of_further.
Qed.

Lemma filter_none (P : ImageState → Prop) `{!∀ img, Decision (P img)}
    (imgs : list ImageState) :
  filter P imgs = [] ↔ ∀ img, img ∈ imgs → ¬ P img.
Proof.
  split.
  - intros Hnil img Hin HP.
    assert (Hf : img ∈ filter P imgs) by (by apply list_elem_of_filter).
    rewrite Hnil in Hf. by apply elem_of_nil in Hf.
  - intros Hnone. induction imgs as [|x imgs IH]; [done|].
    rewrite filter_cons_False by (apply Hnone, list_elem_of_here).
    apply IH. intros img Hin. by apply Hnone, list_elem_of_further.
Qed.

Lemma collectResults_all_rejected (atob : string → Exc string) (operationName : string)
    (targets : list ImageState) (results : list Settled) :
  ∀ (index : nat) (m : gmap string File) (failed : list string),
    Forall (λ r, isRejected r = true) results →
    length results = length (drop index targets) →
    collectResults atob operationName targets results index m failed
      = Ok (m, failed ++ (img_name <$> drop index targets)).
Proof.
  induction results as [|result rest IH]; intros index m failed Hall Hlen.
  - destruct (drop index targets); [|done]. cbn. by rewrite app_nil_r.
  - destruct (drop index targets) as [|t ts] eqn:Hdrop; [done|].
    assert (Hidx : targets !! index = Some t).
    { rewrite <- (Nat.add_0_r index), <- lookup_drop. by rewrite Hdrop. }
    assert (Hnext : drop (S index) targets = ts).
    { apply drop_S in Hidx. rewrite Hdrop in Hidx. by injection Hidx. }
    apply Forall_cons in Hall as [Hrej Hall].
    destruct result as [url|reason]; [done|].
    cbn [collectResults]. rewrite Hidx.
    cbn in Hlen. injection Hlen as Hlen. rewrite <- Hnext in Hlen.
    rewrite (IH (S index) m (failed ++ [img_name t]) Hall Hlen), Hnext.
    by rewrite fmap_cons, <- app_assoc.
Qed.

(** * Strings *)

Lemma string_app_cons (c : ascii) (a b : string) :
  String c a +:+ b = String c (a +:+ b).
Proof. reflexivity. Qed.

Lemma string_app_assoc (a b c : string) : (a +:+ b) +:+ c = a +:+ (b +:+ c).
Proof.
  induction a as [|x a IH]; [done|]. by rewrite !string_app_cons, IH.
Qed.

Lemma string_app_inv_head (a x y : string) : a +:+ x = a +:+ y → x = y.
Proof.
  induction a as [|c a IH]; [done|].
  rewrite !string_app_cons. intros [= H]. by apply IH.
Qed.

Lemma allChars_app (p : ascii → bool) (a b : string) :
  allChars p (a +:+ b) = allChars p a && allChars p b.
Proof.
  induction a as [|c a IH]; [done|].
  rewrite string_app_cons. cbn [allChars]. by rewrite IH, andb_assoc.
Qed.

Lemma allChars_weaken (p q : ascii → bool) (s : string) :
  (∀ c, p c = true → q c = true) → allChars p s = true → allChars q s = true.
Proof.
  intros Hpq. induction s as [|c s IH]; [done|]. cbn [allChars].
  intros [Hc Hs]%andb_true_iff. by rewrite (Hpq c Hc), IH.
Qed.

Lemma mimeChar_notComma (c : ascii) : mimeChar c = true → notComma c = true.
Proof. unfold mimeChar. by intros [[? _]%andb_true_iff _]%andb_true_iff. Qed.

(** * Splitting at commas *)

Lemma split_on_nonempty (sep : ascii) (s : string) : JS.split_on sep s ≠ [].
Proof.
  destruct s as [|c r]; cbn [JS.split_on]; [done|].
  destruct (decide (c = sep)); [done|]. by destruct (JS.split_on sep r).
Qed.

Lemma split_on_cons_other (sep c : ascii) (r : string) :
  c ≠ sep →
  ∃ p ps, JS.split_on sep r = p :: ps ∧ JS.split_on sep (String c r) = String c p :: ps.
Proof.
  intros Hne. cbn [JS.split_on]. rewrite decide_False by done.
  destruct (JS.split_on sep r) as [|p ps] eqn:Hsplit.
  - by destruct (split_on_nonempty sep r).
  - by exists p, ps.
Qed.

Lemma split_on_app (sep : ascii) (s1 s2 : string) :
  JS.split_on sep (s1 +:+ String sep s2) = JS.split_on sep s1 ++ JS.split_on sep s2.
Proof.
  induction s1 as [|c r IH].
  - change (EmptyString +:+ String sep s2) with (String sep s2).
    cbn [JS.split_on]. by rewrite decide_True.
  - rewrite string_app_cons. destruct (decide (c = sep)) as [->|Hne].
    + cbn [JS.split_on]. rewrite !decide_True by done. by rewrite IH.
    + destruct (split_on_cons_other sep c r Hne) as (p & ps & Hr & ->).
      destruct (split_on_cons_other sep c (r +:+ String sep s2) Hne)
        as (p' & ps' & Hr' & ->).
      rewrite IH, Hr in Hr'. by injection Hr' as <- <-.
Qed.

Lemma split_on_no_comma (s : string) :
  allChars notComma s = true → JS.split_on ","%char s = [s].
Proof.
  induction s as [|c r IH]; [done|]. cbn [allChars JS.split_on].
  intros [Hc Hr]%andb_true_iff.
  unfold notComma in Hc. apply negb_true_iff, bool_decide_eq_false in Hc.
  rewrite decide_False by done. by rewrite (IH Hr).
Qed.

Lemma split_on_with_comma (s : string) :
  allChars notComma s = false →
  ∃ a0 a1 rest, JS.split_on ","%char s = a0 :: a1 :: rest.
Proof.
  induction s as [|c r IH]; [done|]. cbn [allChars JS.split_on].
  destruct (decide (c = ","%char)) as [->|Hne].
  - intros _. destruct (JS.split_on ","%char r) as [|p ps] eqn:Hr.
    + by destruct (split_on_nonempty ","%char r).
    + by exists EmptyString, p, ps.
  - unfold notComma at 1. rewrite bool_decide_eq_false_2 by done. cbn [negb andb].
    intros (a0 & a1 & rest & ->)%IH. by exists (String c a0), a1, rest.
Qed.

(** * The MIME type of a data URL *)

Lemma lazy_group_semicolon_plain (mime rest : string) :
  allChars mimeChar mime = true →
  JS.lazy_group_semicolon (mime +:+ String ";"%char rest) = Some mime.
Proof.
  induction mime as [|c r IH].
  - intros _. change (EmptyString +:+ String ";"%char rest) with (String ";"%char rest).
    cbn [JS.lazy_group_semicolon]. by rewrite decide_True.
  - cbn [allChars]. intros [Hc Hr]%andb_true_iff.
    rewrite string_app_cons. cbn [JS.lazy_group_semicolon].
    unfold mimeChar in Hc.
    apply andb_true_iff in Hc as [[_ Hsemi]%andb_true_iff Hlt].
    apply negb_true_iff, bool_decide_eq_false in Hsemi.
    apply negb_true_iff in Hlt.
    rewrite decide_False by done. rewrite Hlt, (IH Hr). done.
Qed.

Lemma dataUrl_prefix_no_comma (mime : string) :
  allChars mimeChar mime = true →
  allChars notComma ("data:" +:+ mime +:+ ";base64") = true.
Proof.
  intros Hm. rewrite !allChars_app.
  rewrite (allChars_weaken mimeChar notComma mime mimeChar_notComma Hm). done.
Qed.

Lemma dataUrl_shape (mime payload : string) :
  "data:" +:+ mime +:+ ";base64," +:+ payload
    = ("data:" +:+ mime +:+ ";base64") +:+ String ","%char payload.
Proof.
  rewrite (string_app_assoc "data:"), (string_app_assoc mime). done.
Qed.

Lemma split_dataUrl (mime payload : string) :
  allChars mimeChar mime = true →
  JS.split_on ","%char ("data:" +:+ mime +:+ ";base64," +:+ payload)
    = ("data:" +:+ mime +:+ ";base64") :: JS.split_on ","%char payload.
Proof.
  intros Hm. rewrite dataUrl_shape, split_on_app.
  by rewrite (split_on_no_comma _ (dataUrl_prefix_no_comma mime Hm)).
Qed.

Lemma match_colon_group_dataUrl (mime : string) :
  allChars mimeChar mime = true →
  JS.match_colon_group ("data:" +:+ mime +:+ ";base64") = Some mime.
Proof.
  intros Hm.
  change ("data:" +:+ mime +:+ ";base64")
    with (String "d" (String "a" (String "t" (String "a" (String ":"
            (mime +:+ String ";" "base64")))))).
  cbn [JS.match_colon_group].
  rewrite !decide_False by done. rewrite decide_True by done.
  by rewrite (lazy_group_semicolon_plain mime "base64" Hm).
Qed.

(** * The first image part *)

Lemma find_first_inline (parts : list Gemini.Part) (part : Gemini.Part) :
  List.find (λ p, bool_decide (is_Some (Gemini.inlineData p))) parts = Some part →
  ∃ i blob,
    parts !! i = Some part ∧ Gemini.inlineData part = Some blob ∧
    ∀ j q, (j < i)%nat → parts !! j = Some q → Gemini.inlineData q = None.
Proof.
  induction parts as [|p parts IH]; [done|]. cbn [List.find].
  destruct (bool_decide (is_Some (Gemini.inlineData p))) eqn:Hp.
  - intros [= <-]. apply bool_decide_eq_true in Hp as [blob Hblob].
    exists 0%nat, blob. repeat split; [done|]. intros j q Hj. lia.
  - intros (i & blob & Hi & Hblob & Hfirst)%IH.
    exists (S i), blob. repeat split; [done..|].
    intros [|j] q Hj Hq.
    + cbn in Hq. injection Hq as <-. apply bool_decide_eq_false in Hp.
      destruct (Gemini.inlineData p); [|done]. by destruct Hp.
    + apply (Hfirst j q); [lia|done].
Qed.

Lemma handleApiResponse_cases (response : Gemini.Response) (context : string) :
  Gemini.handleApiResponse response context
    = if isBlocked response then
        Throw (ErrorObject (Gemini.blockedMessage context
          (Gemini.template (pf ← Gemini.promptFeedback response; Gemini.blockReason pf))
          (pf ← Gemini.promptFeedback response; Gemini.blockReasonMessage pf)))
      else match imageBlob response with
           | Some blob => Ok (Gemini.dataUrlOf blob)
           | None =>
               if isStopped response then
                 Throw (ErrorObject (Gemini.stoppedMessage context
                   (Gemini.template (c ← Gemini.firstCandidate response;
                                     Gemini.finishReason c))))
               else
                 Throw (ErrorObject (Gemini.noImageMessage context
                   (JS.trim <$> Gemini.text response)))
           end.
Proof. reflexivity. Qed.

Lemma messages_differ (c1 c2 r1 r2 : string) (m1 t2 : option string) :
  Gemini.blockedMessage c1 r1 m1 ≠ Gemini.stoppedMessage c2 r2 ∧
  Gemini.blockedMessage c1 r1 m1 ≠ Gemini.noImageMessage c2 t2 ∧
  Gemini.stoppedMessage c1 r1 ≠ Gemini.noImageMessage c2 t2.
Proof.
  unfold Gemini.blockedMessage, Gemini.stoppedMessage, Gemini.noImageMessage.
  repeat split; intros H; rewrite !string_app_cons in H; discriminate H.
Qed.

Ltac messages_clash H :=
  first
    [ discriminate H
    | injection H as H; exfalso;
      first
        [ exact (proj1 (messages_differ _ _ _ _ _ _) H)
        | exact (proj1 (proj2 (messages_differ _ _ _ _ _ None)) H)
        | exact (proj2 (proj2 (messages_differ _ _ _ _ None _)) H)
        | exact (proj1 (messages_differ _ _ _ _ _ _) (eq_sym H))
        | exact (proj1 (proj2 (messages_differ _ _ _ _ _ None)) (eq_sym H))
        | exact (proj2 (proj2 (messages_differ _ _ _ _ None _)) (eq_sym H)) ] ].

(** * Well-formed states *)

Lemma NoDup_ids_coherent (imgs : list ImageState) :
  NoDup (img_id <$> imgs) → coherent imgs.
Proof.
  intros Hnodup a b Ha Hb Hid.
  apply list_elem_of_lookup in Ha as [i Hi]. apply list_elem_of_lookup in Hb as [j Hj].
  assert (i = j) as ->.
  { eapply NoDup_lookup; [exact Hnodup| |].
    - by rewrite list_lookup_fmap, Hi.
    - rewrite list_lookup_fmap, Hj. cbn. by rewrite Hid. }
  rewrite Hi in Hj. by injection Hj as ->.
Qed.

Lemma wellFormed_same_ids (st st' : AppState) :
  img_id <$> images st' = img_id <$> images st →
  activeImageId st' = activeImageId st →
  selectedImageIds st' = selectedImageIds st →
  historiesValid (images st') →
  wellFormed st → wellFormed st'.
Proof.
  intros Hids Hactive Hsel Hvalid (_ & Hnodup & Htruthy & Hrefs).
  split; [done|]. rewrite Hids. split; [done|]. split; [done|].
  by apply (referencesPresent_same st).
Qed.

Lemma wellFormed_same_images (st st' : AppState) :
  images st' = images st →
  activeImageId st' = activeImageId st →
  selectedImageIds st' = selectedImageIds st →
  wellFormed st → wellFormed st'.
Proof.
  intros Himages Hactive Hsel Hwf.
  apply (wellFormed_same_ids st); [by rewrite Himages|done|done| |done].
  rewrite Himages. by destruct Hwf.
Qed.

Lemma wellFormed_stacksInv (st : AppState) : wellFormed st → stacksInv (images st).
Proof. intros (Hvalid & Hnodup & _). split; [done|by apply NoDup_ids_coherent]. Qed.

Lemma wellFormed_applyOp (op : HistoryOp) (st : AppState) :
  eventEnabled (EvHistory op) st → wellFormed st → wellFormed (applyOp op st).
Proof.
  intros Hen Hwf.
  pose proof (stacksInv_applyOp op st (wellFormed_stacksInv st Hwf)) as [Hvalid _].
  destruct Hwf as (_ & Hnodup & Htruthy & Hrefs).
  split; [done|]. rewrite ids_applyOp. split; [done|]. split; [done|].
  by apply (referencesPresent_applyEvent (EvHistory op)).
Qed.

Lemma wellFormed_handleAcceptPreview (st : AppState) :
  wellFormed st → wellFormed (handleAcceptPreview st).
Proof.
  intros Hwf.
  destruct (handleAcceptPreview_cases st) as [->|(file & imageId & ->)].
  - by apply (wellFormed_same_images st).
  - apply (wellFormed_same_images (addImageToHistory file imageId st)); [done..|].
    by apply (wellFormed_applyOp (OpAppend file imageId)).
Qed.

Lemma wellFormed_handleDeleteImage (idToDelete : string) (st : AppState) :
  wellFormed st → wellFormed (handleDeleteImage idToDelete st).
Proof.
  intros (Hvalid & Hnodup & Htruthy & Hrefs).
  split; [|split; [|split]].
  - rewrite images_handleDeleteImage. intros img [_ Hin]%list_elem_of_filter.
    by apply Hvalid.
  - rewrite images_handleDeleteImage. by apply NoDup_ids_filter.
  - rewrite images_handleDeleteImage. rewrite Forall_forall in *.
    intros x (img & -> & [_ Hin]%list_elem_of_filter)%list_elem_of_fmap.
    apply Htruthy, list_elem_of_fmap. by exists img.
  - by apply referencesPresent_handleDeleteImage.
Qed.

Lemma wellFormed_handleImageUploads (files : list Upload) (st : AppState) :
  freshUpload files st → wellFormed st → wellFormed (handleImageUploads files st).
Proof.
  intros Hfresh (Hvalid & Hnodup & Htruthy & Hrefs).
  split; [|split; [|split]].
  - rewrite images_handleImageUploads. intros img [Hin|Hin]%elem_of_app.
    + by apply Hvalid.
    + apply list_elem_of_fmap in Hin as (u & -> & _). unfold historyValid. cbn. lia.
  - rewrite images_handleImageUploads, fmap_app. exact Hfresh.
  - rewrite images_handleImageUploads, fmap_app. apply Forall_app. split; [done|].
    apply Forall_forall. intros x (img & -> & (u & -> & _)%list_elem_of_fmap)%list_elem_of_fmap.
    apply newImageOf_id_truthy.
  - by apply referencesPresent_handleImageUploads.
Qed.

Lemma wellFormed_initial : wellFormed initialState.
Proof.
  split; [by intros img ?%elem_of_nil|]. split; [apply NoDup_nil_2|].
  split; [apply Forall_nil_2|]. split; [done|].
  intros x Hx. destruct (not_elem_of_empty x Hx).
Qed.

Lemma wellFormed_refs (st st' : AppState) :
  images st' = images st → referencesPresent st' → wellFormed st → wellFormed st'.
Proof.
  intros Himages Hrefs (Hvalid & Hnodup & Htruthy & _).
  unfold wellFormed. by rewrite Himages.
Qed.

Lemma wellFormed_applyEvent (ev : CollectionEvent) (st : AppState) :
  appEventEnabled (UserEvent ev) st → wellFormed st → wellFormed (applyEvent ev st).
Proof.
  intros Hen Hwf.
  assert (Henabled : eventEnabled ev st) by (by destruct ev).
  assert (Hrefs : referencesPresent (applyEvent ev st)).
  { apply referencesPresent_applyEvent; [done|]. by destruct Hwf as (_ & _ & _ & ?). }
  destruct ev as [files|id|id|id| | | | | |op]; cbn [appEventEnabled applyEvent] in *.
  - destruct files as [|u rest]; [done|]. by apply wellFormed_handleImageUploads.
  - by apply wellFormed_handleDeleteImage.
  - by apply (wellFormed_applyOp (OpSelect id)).
  - by apply (wellFormed_refs st).
  - by apply (wellFormed_refs st).
  - by apply (wellFormed_refs st).
  - split; [by intros img ?%elem_of_nil|]. split; [apply NoDup_nil_2|].
    split; [apply Forall_nil_2|done].
  - by apply wellFormed_handleAcceptPreview.
  - by apply (wellFormed_same_images st).
  - by apply wellFormed_applyOp.
Qed.

Lemma applyNewImageFiles_valid (m : gmap string File) (imgs : list ImageState) :
  historiesValid imgs → historiesValid (map (applyNewImageFiles m) imgs).
Proof.
  intros Hvalid img' (img & -> & Hin)%list_elem_of_fmap.
  unfold applyNewImageFiles. destruct (m !! img_id img); [apply pushSnapshot_valid|].
  by apply Hvalid.
Qed.

Lemma applyNewImageFiles_ids (m : gmap string File) (imgs : list ImageState) :
  img_id <$> map (applyNewImageFiles m) imgs = img_id <$> imgs.
Proof.
  induction imgs as [|img imgs IH]; [done|]. cbn. f_equal; [|exact IH].
  unfold applyNewImageFiles. by destruct (m !! img_id img).
Qed.

Lemma wellFormed_settleBatch (atob : string → Exc string) (operationName : string)
    (targets : list ImageState) (results : list Settled) (st st' : AppState) :
  handleBatchOperation_settleBatch atob operationName targets results st = Ok st' →
  wellFormed st → wellFormed st'.
Proof.
  intros Hok Hwf.
  destruct (collectResults atob operationName targets results 0 ∅ [])
    as [[m failed]|e] eqn:Hrun.
  - destruct (handleBatchOperation_settleBatch_fields atob operationName targets
                results st m failed Hrun)
      as (st2 & Hok2 & Himages & _ & _ & Hactive & Hsel & _).
    rewrite Hok in Hok2. injection Hok2 as <-.
    apply (wellFormed_same_ids st); [|done|done| |done].
    + rewrite Himages. apply applyNewImageFiles_ids.
    + rewrite Himages. apply applyNewImageFiles_valid. by destruct Hwf.
  - unfold handleBatchOperation_settleBatch in Hok. by rewrite Hrun in Hok.
Qed.

Lemma wellFormed_applyAppEvent (atob : string → Exc string) (ev : AppEvent)
    (st : AppState) :
  appEventEnabled ev st → wellFormed st → wellFormed (applyAppEvent atob ev st).
Proof.
  intros Hen Hwf.
  destruct ev as [ev|v| |tab| | |now outcome|name|name target outcome|name targets results];
    cbn [applyAppEvent].
  - by apply wellFormed_applyEvent.
  - by apply (wellFormed_same_images st).
  - by apply (wellFormed_same_images st).
  - by apply (wellFormed_same_images st).
  - apply (wellFormed_same_images st); [..|done];
      unfold tabSelectionEffect; by destruct (_ && _).
  - apply (wellFormed_same_images st); [..|done];
      unfold handleGenerate_begin;
      by destruct (currentImage st), (JS.truthy_opt (activeImageId st)),
        (JS.truthy (JS.trim (prompt st))), (editHotspot st).
  - apply (wellFormed_same_images st); [..|done];
      unfold handleGenerate_settle; by destruct (awaitedFile _ _ _).
  - apply (wellFormed_same_images st); [..|done];
      unfold handleBatchOperation_begin; by destruct (filter _ _) as [|a [|b rest]].
  - apply (wellFormed_same_images st); [..|done];
      unfold handleBatchOperation_settleSingle; by destruct (awaitedFile _ _ _).
  - destruct (handleBatchOperation_settleBatch _ _ _ _ _) as [st'|e] eqn:Hok; [|done].
    by apply (wellFormed_settleBatch atob name targets results st).
Qed.

Lemma wellFormed_reachable (atob : string → Exc string) (st : AppState) :
  appReachable atob st → wellFormed st.
Proof.
  induction 1 as [|ev st Hreach IH Hen]; [apply wellFormed_initial|].
  by apply wellFormed_applyAppEvent.
Qed.

Lemma wellFormed_active (st : AppState) (a : string) :
  wellFormed st → activeImageId st = Some a →
  JS.truthy a = true ∧
  ∃ img file,
    activeImageState st = Some img ∧ img_id img = a ∧ img ∈ images st ∧
    historyValid img ∧ currentImage st = Some file.
Proof.
  intros (Hvalid & Hnodup & Htruthy & [Hactive _]) Ha.
  pose proof (Hactive a Ha) as Hin. split.
  { rewrite Forall_forall in Htruthy. by apply Htruthy. }
  destruct (findImage_present a (images st) Hin) as [img Hfind].
  pose proof Hfind as [Himg Hid]%findImage_Some. injection Hid as Hid.
  pose proof (Hvalid img Himg) as [Hlo Hhi].
  assert (Hcur : is_Some (JS.index (history img) (historyIndex img))).
  { unfold JS.index. rewrite (proj2 (Z.ltb_ge _ _)) by lia.
    apply lookup_lt_is_Some. lia. }
  destruct Hcur as [file Hfile]. exists img, file.
  unfold currentImage, activeImageState. rewrite Ha, Hfind. by split_and!.
Qed.

Lemma findImage_None (imgs : list ImageState) : findImage None imgs = None.
Proof.
  induction imgs as [|img imgs IH]; [done|].
  rewrite findImage_cons. by rewrite decide_False.
Qed.

Lemma callArgument_valid (target : ImageState) :
  historyValid target → is_Some (callArgument target).
Proof.
  intros [Hlo Hhi]. unfold callArgument, JS.index.
  rewrite (proj2 (Z.ltb_ge _ _)) by lia. apply lookup_lt_is_Some. lia.
Qed.

Lemma appReachable_afterRun : appReachable Sample.atob Case.afterRun.
Proof.
  unfold Case.afterRun, Case.run. cbn [foldl].
  repeat (apply appReachable_event;
          [|cbn [appEventEnabled eventEnabled]; unfold freshUpload; try exact I]).
  - apply appReachable_initial.
  - apply (bool_decide_unpack _). vm_compute. exact I.
  - apply (bool_decide_unpack _). vm_compute. exact I.
Qed.

Lemma findImage_app (a : option string) (l1 l2 : list ImageState) :
  findImage a (l1 ++ l2)
    = match findImage a l1 with
      | Some img => Some img
      | None => findImage a l2
      end.
Proof.
  induction l1 as [|x l1 IH]; [done|].
  rewrite <- app_comm_cons, !findImage_cons.
  by destruct (decide (Some (img_id x) = a)).
Qed.

Lemma findImage_absent (a : string) (imgs : list ImageState) :
  a ∉ img_id <$> imgs → findImage (Some a) imgs = None.
Proof.
  induction imgs as [|x imgs IH]; [done|].
  rewrite fmap_cons, findImage_cons. intros Hout.
  apply not_elem_of_cons in Hout as [Hne Hout].
  rewrite decide_False by congruence. by apply IH.
Qed.

Lemma activeImageId_handleImageUploads (u : Upload) (rest : list Upload) (st : AppState) :
  activeImageId (handleImageUploads (u :: rest) st)
    = if JS.truthy_opt (activeImageId st) then activeImageId st
      else Some (img_id (newImageOf u)).
Proof.
  unfold handleImageUploads. cbn [map head fmap option_fmap option_map].
  rewrite newImageOf_id_truthy. by destruct (JS.truthy_opt (activeImageId st)).
Qed.


(** * The type of a [File] *)

Lemma normalizedType_kept (type : string) :
  allChars keptInType type = true → normalizedType type = type.
Proof.
  intros Hkept. unfold normalizedType.
  assert (H : allPrintable type = true ∧ lowercase type = type).
  { induction type as [|c r IH]; [done|].
    cbn [allChars] in Hkept. apply andb_true_iff in Hkept as [Hc Hr].
    unfold keptInType in Hc. apply andb_true_iff in Hc as [Hp Hl].
    apply bool_decide_eq_true in Hl. destruct (IH Hr) as [IH1 IH2].
    cbn [allPrintable lowercase]. by rewrite Hp, IH1, Hl, IH2. }
  destruct H as [-> H]. exact H.
Qed.

Lemma normalizedType_unprintable (type : string) :
  allPrintable type = false → normalizedType type = "".
Proof. intros H. unfold normalizedType. by rewrite H. Qed.

Lemma dataURLtoFile_dataUrl (atob : string → Exc string) (mime payload filename : string) :
  plainMime mime →
  allChars notComma payload = true →
  dataURLtoFile atob ("data:" +:+ mime +:+ ";base64," +:+ payload) filename
    = match atob payload with
      | Ok bstr => Ok (mkFile filename (normalizedType mime) bstr)
      | Throw e => Throw e
      end.
Proof.
  intros [Hne Hplain] Hpayload. unfold dataURLtoFile.
  rewrite (split_dataUrl mime payload Hplain), (split_on_no_comma payload Hpayload).
  by rewrite (match_colon_group_dataUrl mime Hplain), Hne.
Qed.

(** * A toggle followed by the render *)

Lemma handleToggleSelection_twice (id : string) (st : AppState) :
  handleToggleSelection id (handleToggleSelection id st) = st.
Proof.
  destruct st. unfold handleToggleSelection, setSelectedImageIds. cbn.
  f_equal. apply toggle_twice.
Qed.

Lemma tabSelectionEffect_setActiveTab (st : AppState) :
  tabSelectionEffect st = setActiveTab (activeTab (tabSelectionEffect st)) st.
Proof.
  unfold tabSelectionEffect.
  destruct (bool_decide _ && bool_decide _); [reflexivity|by destruct st].
Qed.

Lemma activeTab_tabSelectionEffect (st : AppState) :
  activeTab (tabSelectionEffect st)
  = if bool_decide (1 < size (selectedImageIds st))%nat && singleImageTab (activeTab st)
    then TabAdjust else activeTab st.
Proof.
  unfold tabSelectionEffect, singleImageTab.
  by destruct (bool_decide _ && bool_decide _).
Qed.
(** * The claims *)

(** C2.  Appending a snapshot to a History Stack with entries [E] and a
    valid cursor [c] keeps the entries up to index [c], discards those
    after it, puts the snapshot last, and moves the cursor to the new
    last index, which is [c + 1]; identity, name and original are kept. *)
Theorem addImageToHistory_branches
    (newImageFile : File) (imageId : string) (st : AppState)
    (i : nat) (image : ImageState) :
  images st !! i = Some image →
  img_id image = imageId →
  historyValid image →
  ∃ image',
    images (addImageToHistory newImageFile imageId st) !! i = Some image' ∧
    history image'
      = take (S (Z.to_nat (historyIndex image))) (history image) ++ [newImageFile] ∧
    historyIndex image' = Z.of_nat (length (history image')) - 1 ∧
    historyIndex image' = historyIndex image + 1 ∧
    img_id image' = img_id image ∧
    img_name image' = img_name image ∧
    originalFile image' = originalFile image.
Proof.
  intros Hi Hid Hvalid. exists (pushSnapshot newImageFile image).
  split.
  { rewrite images_addImageToHistory.
    by apply (updateWhere_lookup_hit (λ img, img_id img = imageId)). }
  split; [by apply pushSnapshot_history|].
  split; [done|].
  split; [by apply pushSnapshot_index|done].
Qed.

(** C9.  With a Pending Preview and no active image, accepting clears the
    preview and changes nothing else: no History Stack gains an entry. *)
Theorem handleAcceptPreview_no_active (st : AppState) (file : File) :
  previewImage st = Some file →
  activeImageId st = None →
  handleAcceptPreview st = handleCancelPreview st ∧
  images (handleAcceptPreview st) = images st ∧
  previewImage (handleAcceptPreview st) = None.
Proof.
  intros Hp Ha. unfold handleAcceptPreview, handleCancelPreview.
  by rewrite Hp, Ha.
Qed.

(** C10.  An append, undo, redo or reset addressed to image [X] leaves
    every entry with another id as it was, field for field. *)
Theorem other_images_unchanged
    (X : string) (newImageFile : File) (st : AppState)
    (i : nat) (other : ImageState) :
  images st !! i = Some other →
  img_id other ≠ X →
  images (addImageToHistory newImageFile X st) !! i = Some other ∧
  (activeImageId st = Some X →
     images (handleUndo st) !! i = Some other ∧
     images (handleRedo st) !! i = Some other ∧
     images (handleReset st) !! i = Some other).
Proof.
  intros Hi Hne. split.
  { rewrite images_addImageToHistory.
    by apply (updateWhere_lookup_other (λ img, img_id img = X)). }
  intros Hact.
  assert (Hother : ¬ Some (img_id other) = activeImageId st)
    by (rewrite Hact; congruence).
  rewrite images_handleUndo, images_handleRedo, images_handleReset.
  repeat split.
  - destruct (canUndo st && _); [|done].
    by apply (updateWhere_lookup_other (λ img, Some (img_id img) = activeImageId st)).
  - destruct (canRedo st && _); [|done].
    by apply (updateWhere_lookup_other (λ img, Some (img_id img) = activeImageId st)).
  - by apply (updateWhere_lookup_other (λ img, Some (img_id img) = activeImageId st)).
Qed.

(** C7.  After any sequence of appends, undos and redos (and switches of
    the active image, and resets) on freshly uploaded images, every
    History Stack has at least one entry and a cursor between 0 and the
    last index; undo changes nothing when the active image's cursor is 0,
    and redo changes nothing when it is the last index. *)
Theorem history_cursor_invariant (files : list Upload) (ops : list HistoryOp) :
  let st := runOps ops (handleImageUploads files initialState) in
  (∀ img, img ∈ images st →
     history img ≠ [] ∧
     0 ≤ historyIndex img ≤ Z.of_nat (length (history img)) - 1) ∧
  (∀ img, activeImageState st = Some img →
     historyIndex img = 0 → handleUndo st = st) ∧
  (∀ img, activeImageState st = Some img →
     historyIndex img = Z.of_nat (length (history img)) - 1 → handleRedo st = st).
Proof.
  intros st. split; [|split].
  - intros img Hin.
    destruct (stacksInv_runOps ops _ (stacksInv_fresh_uploads files)) as [Hvalid _].
    specialize (Hvalid img Hin). unfold historyValid in Hvalid.
    split; [|lia]. intros Hnil. rewrite Hnil in Hvalid. cbn in Hvalid. lia.
  - apply handleUndo_at_bottom.
  - apply handleRedo_at_top.
Qed.

(** C8.  Deleting an image removes its entries; when it was the active
    one, the active id becomes the id of the first remaining entry, or
    none when nothing remains; its id leaves the selection set.  When the
    active id and the selection named present entries before the delete,
    as they do in every state that the user events reach, they name
    present entries after it. *)
Theorem handleDeleteImage_references (idToDelete : string) (st : AppState) :
  let st' := handleDeleteImage idToDelete st in
  images st' = filter (λ img, img_id img ≠ idToDelete) (images st) ∧
  (activeImageId st = Some idToDelete →
     activeImageId st' = img_id <$> head (images st')) ∧
  (idToDelete ∉ selectedImageIds st') ∧
  (referencesPresent st → referencesPresent st') ∧
  (reachable st → referencesPresent st').
Proof.
  intros st'. subst st'. split; [apply images_handleDeleteImage|].
  split.
  { intros Hact. rewrite activeImageId_handleDeleteImage. by rewrite decide_True. }
  split.
  { rewrite selectedImageIds_handleDeleteImage.
    intros [_ Hout]%elem_of_difference. by apply Hout, elem_of_singleton. }
  split; [apply referencesPresent_handleDeleteImage|].
  intros Hreach. by apply referencesPresent_handleDeleteImage, referencesPresent_reachable.
Qed.

(** C6.  A retouch request checks that an image is active, then that the
    instruction is not blank, then that a focus point is set; the first
    check that fails sets its own error message and no call is issued;
    when all three hold the call is issued with the current snapshot, the
    instruction and the focus point.  The three messages differ. *)
Theorem handleGenerate_checks_in_order (st : AppState) :
  match firstUnmet st with
  | Some p =>
      handleGenerate_begin st = (setError (Some (preconditionError p)) st, None)
  | None =>
      ∃ image hotspot,
        currentImage st = Some image ∧
        editHotspot st = Some hotspot ∧
        handleGenerate_begin st
          = (loadingState st, Some (mkGenerateCall image (prompt st) hotspot))
  end ∧
  NoDup (preconditionError <$> checkOrder).
Proof.
  split.
  - unfold firstUnmet, handleGenerate_begin, loadingState. cbn.
    destruct (currentImage st) as [image|]; cbn; [|done].
    destruct (JS.truthy_opt (activeImageId st)); cbn; [|done].
    destruct (JS.truthy (JS.trim (prompt st))); cbn; [|done].
    destruct (editHotspot st) as [hotspot|]; cbn; [|done].
    by exists image, hotspot.
  - by apply (bool_decide_unpack _).
Qed.

(** C4, as the code has it.  An upload of one or more files adds the id
    created for the first file to the selection set, and nothing else. *)
Theorem handleImageUploads_selects_first
    (u : Upload) (rest : list Upload) (st : AppState) :
  selectedImageIds (handleImageUploads (u :: rest) st)
    = selectedImageIds st ∪ {[ img_id (newImageOf u) ]}.
Proof.
  apply handleImageUploads_selection.
Qed.

(** C3.  Neither issuing a single-target call nor its completion touches
    the images: a call that succeeds only fills the pending preview, one
    that fails only sets the error message, and both clear the loading
    flag; cancelling the preview clears it and nothing else. *)
Theorem single_dispatch_keeps_histories
    (atob : string → Exc string) (operationName : string)
    (st st' : AppState) (target : ImageState) (outcome : Settled) (now : N) :
  let filtered := handleBatchOperation_settleSingle atob operationName target outcome st' in
  let retouched := handleGenerate_settle atob now outcome st' in
  (images (handleBatchOperation_begin operationName st).1 = images st ∧
   previewImage (handleBatchOperation_begin operationName st).1 = previewImage st ∧
   images (handleGenerate_begin st).1 = images st ∧
   previewImage (handleGenerate_begin st).1 = previewImage st) ∧
  (images filtered = images st' ∧
   activeImageId filtered = activeImageId st' ∧
   selectedImageIds filtered = selectedImageIds st' ∧
   isLoading filtered = false ∧
   match awaitedFile atob outcome (operationName +:+ "-" +:+ img_name target) with
   | Ok newImageFile =>
       previewImage filtered = Some newImageFile ∧ error filtered = error st'
   | Throw err =>
       previewImage filtered = previewImage st' ∧
       error filtered
         = Some ("Gagal menerapkan " +:+ operationName +:+ ". " +:+ errorMessageOf err)
   end) ∧
  (images retouched = images st' ∧
   activeImageId retouched = activeImageId st' ∧
   selectedImageIds retouched = selectedImageIds st' ∧
   isLoading retouched = false ∧
   match awaitedFile atob outcome ("edited-" +:+ pretty now +:+ ".png") with
   | Ok newImageFile =>
       previewImage retouched = Some newImageFile ∧ error retouched = error st'
   | Throw err =>
       previewImage retouched = previewImage st' ∧
       error retouched = Some ("Gagal membuat gambar. " +:+ errorMessageOf err)
   end) ∧
  (handleCancelPreview st = setPreviewImage None st ∧
   images (handleCancelPreview st) = images st ∧
   activeImageId (handleCancelPreview st) = activeImageId st ∧
   selectedImageIds (handleCancelPreview st) = selectedImageIds st ∧
   previewImage (handleCancelPreview st) = None).
Proof.
  intros filtered retouched. subst filtered retouched.
  split; [|split; [|split]].
  - unfold handleBatchOperation_begin, handleGenerate_begin.
    destruct (filter _ (images st)) as [|t [|t' ts]];
      destruct (currentImage st), (JS.truthy_opt (activeImageId st)),
        (JS.truthy (JS.trim (prompt st))), (editHotspot st); done.
  - unfold handleBatchOperation_settleSingle.
    by destruct (awaitedFile _ _ _).
  - unfold handleGenerate_settle.
    by destruct (awaitedFile _ _ _).
  - done.
Qed.

(** C5, as the code has it.  A retouch dispatched while [X] is active
    and fulfilled with a data URL that decodes fills the pending preview
    with the decoded file, whatever happened to the state in between; the
    preview does not record [X].  Accepting it while [X] is the active
    image appends the file to the History Stack of [X], at its cursor. *)
Theorem handleAcceptPreview_appends_to_active
    (atob : string → Exc string) (now : N) (url : string) (newImageFile : File)
    (st0 st1 : AppState) (call : GenerateCall) (X : string)
    (settledIn st : AppState) :
  activeImageId st0 = Some X →
  handleGenerate_begin st0 = (st1, Some call) →
  dataURLtoFile atob url ("edited-" +:+ pretty now +:+ ".png") = Ok newImageFile →
  previewImage st
    = previewImage (handleGenerate_settle atob now (Fulfilled url) settledIn) →
  activeImageId st = Some X →
  currentImage st0 = Some (call_image call) ∧
  images st1 = images st0 ∧
  previewImage st = Some newImageFile ∧
  handleAcceptPreview st
    = setPreviewImage None (addImageToHistory newImageFile X st) ∧
  images (handleAcceptPreview st)
    = map (updateWhere (λ img, img_id img = X) (pushSnapshot newImageFile))
        (images st).
Proof.
  intros Hactive0 Hbegin Hdecode Hpreview Hactive.
  apply handleGenerate_begin_call in Hbegin as (Hcurrent & Htruthy & -> & _).
  rewrite Hactive0 in Htruthy. cbn in Htruthy.
  rewrite (previewImage_handleGenerate_settle _ _ _ _ _ Hdecode) in Hpreview.
  split; [done|]. split; [done|]. split; [done|].
  destruct (handleAcceptPreview_active st newImageFile X Hpreview Hactive Htruthy)
    as [Haccept Himages].
  by split.
Qed.

(** X21.  A batch over more than one target in which every fulfilled
    call carries a data URL that decodes (one result per target, the ids
    of the collection distinct) is merged by one update of the images: an
    entry whose target's call fulfilled gets the decoded file appended at
    its cursor; an entry whose target's call was rejected, and an entry
    that is no target, stay as they were; the error message is set
    exactly when some call was rejected and then gives the number and the
    names of the targets whose call was rejected, and only those. *)
Theorem batch_settles_per_target
    (atob : string → Exc string) (operationName : string)
    (st0 st1 : AppState) (targets : list ImageState)
    (results : list Settled) (st : AppState) :
  handleBatchOperation_begin operationName st0 = (st1, MultiDispatch targets) →
  NoDup (img_id <$> images st0) →
  length results = length targets →
  resultsDecode atob operationName targets results →
  (1 < length targets)%nat ∧
  ∃ st' newImageFiles,
    handleBatchOperation_settleBatch atob operationName targets results st = Ok st' ∧
    images st' = map (applyNewImageFiles newImageFiles) (images st) ∧
    (∀ k t url j image,
       targets !! k = Some t → results !! k = Some (Fulfilled url) →
       images st !! j = Some image → img_id image = img_id t →
       ∃ f image',
         dataURLtoFile atob url (operationName +:+ "-" +:+ img_name t) = Ok f ∧
         images st' !! j = Some image' ∧
         image' = pushSnapshot f image ∧
         (historyValid image →
            history image'
              = take (S (Z.to_nat (historyIndex image))) (history image) ++ [f] ∧
            historyIndex image' = historyIndex image + 1)) ∧
    (∀ k t reason j image,
       targets !! k = Some t → results !! k = Some (Rejected reason) →
       images st !! j = Some image → img_id image = img_id t →
       images st' !! j = Some image) ∧
    (∀ j image,
       images st !! j = Some image → img_id image ∉ img_id <$> targets →
       images st' !! j = Some image) ∧
    error st' = match failedTargets targets results with
                | [] => error st
                | failed =>
                    Some ("Gagal menerapkan " +:+ operationName +:+ " pada "
                          +:+ pretty (length failed) +:+ " gambar: "
                          +:+ JS.join ", " (img_name <$> failed)
                          +:+ ". Gambar lainnya berhasil diperbarui.")
                end ∧
    (∀ t, t ∈ failedTargets targets results ↔
          ∃ k reason, targets !! k = Some t ∧ results !! k = Some (Rejected reason)) ∧
    isLoading st' = false ∧
    activeImageId st' = activeImageId st ∧
    selectedImageIds st' = selectedImageIds st ∧
    previewImage st' = previewImage st.
Proof.
  intros Hbegin Hids Hlen Hdec.
  apply handleBatchOperation_begin_multi in Hbegin as (Htargets & Hmany & _).
  split; [done|].
  assert (Hnodup : NoDup (img_id <$> targets))
    by (rewrite Htargets; by apply NoDup_ids_filter).
  destruct (collectResults_ok atob operationName targets results 0 ∅ []
              Hlen Hnodup Hdec) as (m & Hrun & Hhit & Hmiss).
  change (drop 0 targets) with targets in Hrun, Hhit, Hmiss.
  cbn [app] in Hrun.
  destruct (handleBatchOperation_settleBatch_fields _ _ _ _ st _ _ Hrun)
    as (st' & Hok & Himages & Herror & Hrest).
  exists st', m. split; [done|]. split; [done|].
  assert (Hlookup : ∀ j image, images st !! j = Some image →
            images st' !! j = Some (applyNewImageFiles m image)).
  { intros j image Hj. by rewrite Himages, list_lookup_fmap, Hj. }
  split; [|split; [|split; [|split; [|split]]]].
  - intros k t url j image Hk Hr Hj Hid.
    destruct (Hhit k t url Hk Hr) as (f & Hf & Hm).
    exists f, (pushSnapshot f image). split; [done|]. split.
    { rewrite (Hlookup j image Hj). unfold applyNewImageFiles. by rewrite Hid, Hm. }
    split; [done|]. intros Hvalid.
    split; [by apply pushSnapshot_history|by apply pushSnapshot_index].
  - intros k t reason j image Hk Hr Hj Hid.
    rewrite (Hlookup j image Hj). unfold applyNewImageFiles.
    rewrite Hmiss, lookup_empty; [done|].
    intros k' t' url' Hk' Hr' Hsame.
    assert (k' = k) as ->.
    { eapply NoDup_lookup; [exact Hnodup| |].
      - by rewrite list_lookup_fmap, Hk'.
      - rewrite list_lookup_fmap, Hk. cbn. congruence. }
    congruence.
  - intros j image Hj Hout.
    rewrite (Hlookup j image Hj). unfold applyNewImageFiles.
    rewrite Hmiss, lookup_empty; [done|].
    intros k' t' url' Hk' Hr' Hsame. apply Hout.
    apply list_elem_of_fmap. exists t'. split; [done|].
    by eapply list_elem_of_lookup_2.
  - rewrite Herror. destruct (failedTargets targets results) as [|t ts]; [done|].
    unfold batchErrorMessage. by rewrite length_fmap.
  - apply elem_of_failedTargets.
  - done.
Qed.

(** C1, where the code departs from it.  When some fulfilled call of a
    batch carries a value that [dataURLtoFile] rejects, the loop over the
    results throws: the handler ends before [setImages], [setError] and
    [setIsLoading(false)], so the targets whose calls succeeded get no
    snapshot and no failure is reported.  (The single-target branch of
    the same handler decodes inside its [try].) *)
Theorem batch_stops_at_undecodable_result
    (atob : string → Exc string) (operationName : string)
    (targets : list ImageState) (results : list Settled) (st : AppState)
    (k : nat) (t : ImageState) (url : string) (e : Thrown) :
  targets !! k = Some t →
  results !! k = Some (Fulfilled url) →
  dataURLtoFile atob url (operationName +:+ "-" +:+ img_name t) = Throw e →
  ∃ e', handleBatchOperation_settleBatch atob operationName targets results st = Throw e'.
Proof.
  intros Ht Hr Hdecode.
  destruct (collectResults_throws atob operationName targets t url e Hdecode
              results 0 ∅ [] k Ht Hr) as [e' Hthrow].
  exists e'. unfold handleBatchOperation_settleBatch. by rewrite Hthrow.
Qed.

(** * Further properties of the handlers *)

(** X1.  After a reset the active entry holds its original file alone,
    at cursor 0, however long its history was: the file shown is the
    original, and neither undo nor redo is available.  Every entry with
    the active id is rebuilt that way. *)
Theorem handleReset_restores_original (st : AppState) :
  activeImageState (handleReset st) = resetImage <$> activeImageState st ∧
  currentImage (handleReset st) = originalFile <$> activeImageState st ∧
  canUndo (handleReset st) = false ∧
  canRedo (handleReset st) = false ∧
  (∀ i img,
     images st !! i = Some img → Some (img_id img) = activeImageId st →
     ∃ img', images (handleReset st) !! i = Some img' ∧
             history img' = [originalFile img] ∧ historyIndex img' = 0 ∧
             img_id img' = img_id img ∧ originalFile img' = originalFile img).
Proof.
  pose proof (activeImageState_handleReset st) as Hact.
  split; [done|]. split; [|split; [|split]].
  - unfold currentImage. rewrite Hact. by destruct (activeImageState st).
  - unfold canUndo. rewrite Hact. by destruct (activeImageState st).
  - unfold canRedo. rewrite Hact. by destruct (activeImageState st).
  - intros i img Hi Hid. exists (resetImage img). split; [|done].
    rewrite images_handleReset.
    by apply (updateWhere_lookup_hit (λ img, Some (img_id img) = activeImageId st)).
Qed.

(** X2.  Undo and redo are inverse to each other on the images: when
    the active entry has a valid cursor, a redo after an undo that was
    available gives back the images as they were, and so does an undo
    after a redo that was available. *)
Theorem undo_redo_inverse (st : AppState) (img : ImageState) :
  activeImageState st = Some img →
  historyValid img →
  (canUndo st = true → images (handleRedo (handleUndo st)) = images st) ∧
  (canRedo st = true → images (handleUndo (handleRedo st)) = images st).
Proof.
  intros Hact [Hlo Hhi]. split.
  - intros Hundo.
    destruct (JS.truthy_opt (activeImageId st)) eqn:Htruthy.
    + assert (Hguard : canUndo st && JS.truthy_opt (activeImageId st) = true)
        by (by rewrite Hundo, Htruthy).
      pose proof (activeImageState_handleUndo st img Hact Hguard) as Hact'.
      rewrite images_handleRedo, activeImageId_handleUndo, Htruthy.
      unfold canRedo. rewrite Hact'. cbn [historyIndex history withHistoryIndex].
      rewrite (proj2 (Z.ltb_lt _ _)) by lia. cbn [andb].
      rewrite images_handleUndo, Hguard.
      apply map_updateWhere_inverse; [done| |].
      * intros a b Hid. cbn. congruence.
      * intros x. unfold withHistoryIndex. destruct x.
        cbn [img_id img_name originalFile history historyIndex]. f_equal. lia.
    + assert (Hu : handleUndo st = st)
        by (unfold handleUndo; by rewrite Htruthy, andb_false_r).
      assert (Hr : handleRedo st = st)
        by (unfold handleRedo; by rewrite Htruthy, andb_false_r).
      by rewrite Hu, Hr.
  - intros Hredo.
    destruct (JS.truthy_opt (activeImageId st)) eqn:Htruthy.
    + assert (Hguard : canRedo st && JS.truthy_opt (activeImageId st) = true)
        by (by rewrite Hredo, Htruthy).
      pose proof (activeImageState_handleRedo st img Hact Hguard) as Hact'.
      rewrite images_handleUndo, activeImageId_handleRedo, Htruthy.
      unfold canUndo. rewrite Hact'. cbn [historyIndex withHistoryIndex fmap option_fmap
        option_map default]. unfold id.
      rewrite (proj2 (Z.ltb_lt _ _)) by lia. cbn [andb].
      rewrite images_handleRedo, Hguard.
      apply map_updateWhere_inverse; [done| |].
      * intros a b Hid. cbn. congruence.
      * intros x. unfold withHistoryIndex. destruct x.
        cbn [img_id img_name originalFile history historyIndex]. f_equal. lia.
    + assert (Hu : handleUndo st = st)
        by (unfold handleUndo; by rewrite Htruthy, andb_false_r).
      assert (Hr : handleRedo st = st)
        by (unfold handleRedo; by rewrite Htruthy, andb_false_r).
      by rewrite Hr, Hu.
Qed.

(** X3.  Accepting a preview makes it the current image and leaves
    nothing to redo; an undo then shows the image that was current
    before, and a redo brings the accepted one back. *)
Theorem accept_undo_redo (st : AppState) (file : File) (a : string) (img : ImageState) :
  previewImage st = Some file →
  activeImageId st = Some a →
  JS.truthy a = true →
  activeImageState st = Some img →
  historyValid img →
  let accepted := handleAcceptPreview st in
  currentImage accepted = Some file ∧
  canUndo accepted = true ∧
  canRedo accepted = false ∧
  currentImage (handleUndo accepted) = currentImage st ∧
  currentImage (handleRedo (handleUndo accepted)) = Some file.
Proof.
  intros Hpreview Ha Htruthy Hact Hvalid accepted.
  assert (Hacc : activeImageState accepted = Some (pushSnapshot file img)).
  { unfold accepted, handleAcceptPreview. rewrite Hpreview, Ha, Htruthy.
    apply (activeImageState_addImageToHistory file a st img Ha Hact). }
  assert (Haid : activeImageId accepted = Some a).
  { unfold accepted, handleAcceptPreview. rewrite Hpreview, Ha, Htruthy. cbn.
    by rewrite (proj1 (references_addImageToHistory file a st)). }
  pose proof (pushSnapshot_index file img Hvalid) as Hidx.
  pose proof Hvalid as [Hlo Hhi].
  assert (Hcan : canUndo accepted = true).
  { unfold canUndo. rewrite Hacc. cbn [fmap option_fmap option_map default]. unfold id.
    apply Z.ltb_lt. lia. }
  assert (Hguard : canUndo accepted && JS.truthy_opt (activeImageId accepted) = true).
  { rewrite Hcan, Haid. cbn. by rewrite Htruthy. }
  pose proof (activeImageState_handleUndo accepted _ Hacc Hguard) as Hundone.
  rewrite Hidx in Hundone.
  replace (historyIndex img + 1 - 1) with (historyIndex img) in Hundone by lia.
  assert (Hredo : canRedo (handleUndo accepted)
                  && JS.truthy_opt (activeImageId (handleUndo accepted)) = true).
  { unfold canRedo. rewrite Hundone, activeImageId_handleUndo, Haid.
    cbn [historyIndex history withHistoryIndex JS.truthy_opt]. rewrite Htruthy, andb_true_r.
    apply Z.ltb_lt. change (history (pushSnapshot file img))
      with (JS.slice0 (history img) (historyIndex img + 1) ++ [file]).
    rewrite length_app, slice0_length by lia. cbn [length]. lia. }
  pose proof (activeImageState_handleRedo _ _ Hundone Hredo) as Hredone.
  split; [|split; [|split; [|split]]].
  - unfold currentImage. rewrite Hacc. cbn. apply pushSnapshot_current.
  - done.
  - unfold canRedo. rewrite Hacc. apply Z.ltb_irrefl.
  - unfold currentImage. rewrite Hundone, Hact. cbn [mbind option_bind].
    apply (pushSnapshot_previous file img Hvalid).
  - unfold currentImage. rewrite Hredone. cbn [mbind option_bind].
    cbn [historyIndex history withHistoryIndex].
    rewrite <- Hidx. apply pushSnapshot_current.
Qed.

(** X4.  Two clicks on the check box of one thumbnail, each followed by
    the render with its effect on the selection, give back the selection
    and every other piece of state but the active tab: the tab has moved
    to "adjust" exactly when it was "retouch" or "crop" and more than one
    image was selected before the first click or after it, and is as it
    was otherwise.  So the state as a whole comes back when the tab is
    "adjust" or "filters", and when at most one image is selected both
    before and after the first click. *)
Theorem toggle_twice_restores_selection (id : string) (st : AppState) :
  let once := toggleAndRender id st in
  let twice := toggleAndRender id once in
  let moved := singleImageTab (activeTab st)
               && (bool_decide (1 < size (selectedImageIds once))%nat
                   || bool_decide (1 < size (selectedImageIds st))%nat) in
  selectedImageIds twice = selectedImageIds st ∧
  twice = setActiveTab (if moved then TabAdjust else activeTab st) st ∧
  (moved = false ↔ twice = st).
Proof.
  intros once twice moved.
  assert (Honce : once = setActiveTab (activeTab once) (handleToggleSelection id st))
    by apply tabSelectionEffect_setActiveTab.
  assert (Htwice : twice = setActiveTab (activeTab twice) st).
  { unfold twice, toggleAndRender. rewrite tabSelectionEffect_setActiveTab.
    rewrite Honce at 2.
    change (handleToggleSelection id (setActiveTab ?t ?s))
      with (setActiveTab t (handleToggleSelection id s)).
    by rewrite handleToggleSelection_twice. }
  assert (Hsel1 : selectedImageIds once = selectedImageIds (handleToggleSelection id st))
    by (by rewrite Honce).
  assert (Hsel2 : selectedImageIds (handleToggleSelection id once) = selectedImageIds st).
  { rewrite Honce.
    change (handleToggleSelection id (setActiveTab ?t ?s))
      with (setActiveTab t (handleToggleSelection id s)).
    by rewrite handleToggleSelection_twice. }
  assert (Htab : activeTab twice = if moved then TabAdjust else activeTab st).
  { unfold twice, toggleAndRender at 1. rewrite activeTab_tabSelectionEffect, Hsel2.
    change (activeTab (handleToggleSelection id once)) with (activeTab once).
    unfold once, toggleAndRender. rewrite activeTab_tabSelectionEffect.
    change (activeTab (handleToggleSelection id st)) with (activeTab st).
    unfold moved. rewrite Hsel1.
    destruct (bool_decide (1 < size (selectedImageIds (handleToggleSelection id st)))%nat),
      (bool_decide (1 < size (selectedImageIds st))%nat),
      (activeTab st); reflexivity. }
  split; [by rewrite Htwice|]. split; [by rewrite <- Htab|].
  rewrite Htwice, Htab. split.
  - intros ->. by destruct st.
  - intros Heq. destruct moved eqn:Hmoved; [|done].
    apply (f_equal activeTab) in Heq. cbn in Heq.
    unfold moved in Hmoved. apply andb_true_iff in Hmoved as [Hsingle _].
    rewrite <- Heq in Hsingle. discriminate Hsingle.
Qed.

(** X5.  After "select all" a filter or adjustment is dispatched to every
    entry, in display order (as a batch when there are two or more);
    after "deselect all" nothing is dispatched. *)
Theorem select_all_dispatches_to_all (operationName : string) (st : AppState) :
  filter (λ img, img_id img ∈ selectedImageIds (handleSelectAll st)) (images st)
    = images st ∧
  ((1 < length (images st))%nat →
     handleBatchOperation_begin operationName (handleSelectAll st)
       = (loadingState (handleSelectAll st), MultiDispatch (images st))) ∧
  (handleBatchOperation_begin operationName (handleDeselectAll st)).2 = NoDispatch.
Proof.
  assert (Hall : filter (λ img, img_id img ∈ selectedImageIds (handleSelectAll st))
                   (images st) = images st).
  { apply filter_all. intros img Hin. cbn.
    apply elem_of_list_to_set, list_elem_of_fmap. by exists img. }
  split; [done|]. split.
  - intros Hmany. unfold handleBatchOperation_begin.
    change (images (handleSelectAll st)) with (images st). rewrite Hall.
    destruct (images st) as [|a [|b rest]]; cbn in Hmany; [lia|lia|done].
  - unfold handleBatchOperation_begin.
    change (images (handleDeselectAll st)) with (images st).
    rewrite (proj2 (filter_none _ (images st))); [done|].
    intros img _. cbn. apply not_elem_of_empty.
Qed.


(** X7.  A batch in which every call is rejected changes no image and
    sets the error message that counts and names all targets, in display
    order; the loading flag is cleared. *)
Theorem batch_all_rejected (atob : string → Exc string) (operationName : string)
    (targets : list ImageState) (results : list Settled) (st : AppState) :
  Forall (λ r, isRejected r = true) results →
  length results = length targets →
  targets ≠ [] →
  handleBatchOperation_settleBatch atob operationName targets results st
    = Ok (setIsLoading false
            (setError (Some (batchErrorMessage operationName (img_name <$> targets))) st)).
Proof.
  intros Hall Hlen Hne. unfold handleBatchOperation_settleBatch.
  rewrite (collectResults_all_rejected atob operationName targets results 0 ∅ [] Hall Hlen).
  change (drop 0 targets) with targets. cbn [app].
  rewrite map_size_empty. rewrite (bool_decide_eq_false_2 (0 < 0)%nat) by lia.
  destruct targets as [|t ts]; [done|].
  rewrite bool_decide_eq_true_2; [done|]. rewrite fmap_cons. cbn [length]. lia.
Qed.


(** X9.  Deleting an image other than the active one leaves the active
    id, the active entry and the image shown as they were. *)
Theorem delete_other_keeps_current (idToDelete : string) (st : AppState) :
  activeImageId st ≠ Some idToDelete →
  activeImageId (handleDeleteImage idToDelete st) = activeImageId st ∧
  activeImageState (handleDeleteImage idToDelete st) = activeImageState st ∧
  currentImage (handleDeleteImage idToDelete st) = currentImage st ∧
  canUndo (handleDeleteImage idToDelete st) = canUndo st ∧
  canRedo (handleDeleteImage idToDelete st) = canRedo st.
Proof.
  intros Hne.
  assert (Hid : activeImageId (handleDeleteImage idToDelete st) = activeImageId st).
  { rewrite activeImageId_handleDeleteImage. by rewrite decide_False. }
  assert (Hact : activeImageState (handleDeleteImage idToDelete st) = activeImageState st).
  { unfold activeImageState. rewrite Hid, images_handleDeleteImage.
    by apply findImage_filter_other. }
  unfold currentImage, canUndo, canRedo. by rewrite Hact.
Qed.

(** X10.  A retouch whose call fails can be sent again at once: the
    guards still pass and the same call is issued.  After a retouch that
    succeeded, a new request stops at the focus point check, because the
    focus point was cleared. *)
Theorem retouch_retry_after_failure (atob : string → Exc string) (now : N)
    (st st1 : AppState) (call : GenerateCall)
    (reason : Thrown) (url : string) (newImageFile : File) :
  handleGenerate_begin st = (st1, Some call) →
  (handleGenerate_begin (handleGenerate_settle atob now (Rejected reason) st1)).2
    = Some call ∧
  (dataURLtoFile atob url ("edited-" +:+ pretty now +:+ ".png") = Ok newImageFile →
   handleGenerate_begin (handleGenerate_settle atob now (Fulfilled url) st1)
     = (setError (Some (preconditionError FocusPointPresent))
          (handleGenerate_settle atob now (Fulfilled url) st1), None)).
Proof.
  intros Hbegin. pose proof Hbegin as Hcall.
  apply handleGenerate_begin_call in Hcall as (Hcur & Htruthy & -> & Hhot).
  unfold handleGenerate_begin in Hbegin. rewrite Hcur, Htruthy in Hbegin.
  destruct (JS.truthy (JS.trim (prompt st))) eqn:Hprompt; [|done].
  rewrite Hhot in Hbegin. injection Hbegin as Hc.
  split.
  - set (st2 := handleGenerate_settle atob now (Rejected reason) (loadingState st)).
    assert (H2 : currentImage st2 = currentImage st ∧
                 activeImageId st2 = activeImageId st ∧
                 prompt st2 = prompt st ∧ editHotspot st2 = editHotspot st) by done.
    clearbody st2. destruct H2 as (Hc2 & Ha2 & Hp2 & Hh2).
    unfold handleGenerate_begin.
    by rewrite Hc2, Ha2, Hp2, Hh2, Hcur, Htruthy, Hprompt, Hhot, Hc.
  - intros Hdecode.
    set (st2 := handleGenerate_settle atob now (Fulfilled url) (loadingState st)).
    assert (H2 : currentImage st2 = currentImage st ∧
                 activeImageId st2 = activeImageId st ∧
                 prompt st2 = prompt st ∧ editHotspot st2 = None).
    { unfold st2, handleGenerate_settle, awaitedFile. by rewrite Hdecode. }
    clearbody st2. destruct H2 as (Hc2 & Ha2 & Hp2 & Hh2).
    unfold handleGenerate_begin.
    by rewrite Hc2, Ha2, Hp2, Hh2, Hcur, Htruthy, Hprompt.
Qed.

(** X11.  Two uploads of files with the same name at the same
    millisecond get the same id exactly when [Math.random()] returned the
    same number for both. *)
Theorem upload_ids_differ_by_random (u v : Upload) :
  file_name (upload_file u) = file_name (upload_file v) →
  upload_now u = upload_now v →
  (img_id (newImageOf u) = img_id (newImageOf v) ↔ upload_random u = upload_random v).
Proof.
  intros Hname Hnow. cbn. rewrite Hname, Hnow. split.
  - intros Heq.
    by do 4 apply string_app_inv_head in Heq.
  - by intros ->.
Qed.

(** X12.  [dataURLtoFile] reads back a data URL of the form that the
    service builds: for a MIME type that is not empty and has no comma,
    semicolon or line terminator, and a payload without comma, the file
    has the given name, the bytes that [atob] makes of the payload, and
    as type what the [File] constructor makes of the MIME type: its
    upper-case letters turned to lower case, or the empty string when it
    has a character outside U+0020..U+007E.  So the type is the MIME type
    itself when that has printable characters only and no upper-case
    letter.  The function fails exactly as [atob] fails. *)
Theorem dataURLtoFile_reads_service_url (atob : string → Exc string)
    (mime payload filename : string) :
  plainMime mime →
  allChars notComma payload = true →
  dataURLtoFile atob ("data:" +:+ mime +:+ ";base64," +:+ payload) filename
    = match atob payload with
      | Ok bstr =>
          Ok (mkFile filename (if allPrintable mime then lowercase mime else "") bstr)
      | Throw e => Throw e
      end ∧
  (allChars keptInType mime = true →
   dataURLtoFile atob ("data:" +:+ mime +:+ ";base64," +:+ payload) filename
     = match atob payload with
       | Ok bstr => Ok (mkFile filename mime bstr)
       | Throw e => Throw e
       end).
Proof.
  intros Hmime Hpayload.
  rewrite (dataURLtoFile_dataUrl atob mime payload filename Hmime Hpayload).
  split; [reflexivity|].
  intros Hkept. by rewrite (normalizedType_kept mime Hkept).
Qed.

(** X13.  [dataURLtoFile] rejects every string without a comma as an
    invalid data URL, before [atob] is called; and it never reads past
    the second comma: what follows it does not change the result. *)
Theorem dataURLtoFile_commas (atob : string → Exc string) (dataurl junk filename : string) :
  (allChars notComma dataurl = true →
     dataURLtoFile atob dataurl filename = Throw (ErrorObject "Invalid data URL")) ∧
  (allChars notComma dataurl = false →
     dataURLtoFile atob (dataurl +:+ "," +:+ junk) filename
       = dataURLtoFile atob dataurl filename).
Proof.
  split.
  - intros Hno. unfold dataURLtoFile. by rewrite (split_on_no_comma dataurl Hno).
  - intros (a0 & a1 & rest & Hsplit)%split_on_with_comma.
    unfold dataURLtoFile.
    change (dataurl +:+ "," +:+ junk) with (dataurl +:+ String ","%char junk).
    by rewrite split_on_app, Hsplit.
Qed.

(** X14.  [handleApiResponse] returns a data URL exactly when the
    prompt was not blocked and some part of the first candidate carries
    inline data; the URL is built from the first such part, the parts
    before it carrying none. *)
Theorem handleApiResponse_success (response : Gemini.Response) (context url : string) :
  Gemini.handleApiResponse response context = Ok url ↔
  isBlocked response = false ∧
  ∃ candidate parts i part blob,
    Gemini.firstCandidate response = Some candidate ∧
    Gemini.candidateParts candidate = Some parts ∧
    parts !! i = Some part ∧
    Gemini.inlineData part = Some blob ∧
    (∀ j q, (j < i)%nat → parts !! j = Some q → Gemini.inlineData q = None) ∧
    url = Gemini.dataUrlOf blob.
Proof.
  rewrite handleApiResponse_cases. split.
  - destruct (isBlocked response); [done|]. intros Hok. split; [done|].
    unfold imageBlob, Gemini.imagePartFromResponse in Hok.
    destruct (Gemini.firstCandidate response) as [candidate|] eqn:Hc; cbn in Hok;
      [|by destruct (isStopped response)].
    destruct (Gemini.candidateParts candidate) as [parts|] eqn:Hp; cbn in Hok;
      [|by destruct (isStopped response)].
    destruct (List.find _ parts) as [part|] eqn:Hfind; cbn in Hok;
      [|by destruct (isStopped response)].
    destruct (find_first_inline parts part Hfind) as (i & blob & Hi & Hblob & Hfirst).
    rewrite Hblob in Hok. injection Hok as <-.
    exists candidate, parts, i, part, blob. by split_and!.
  - intros [-> (candidate & parts & i & part & blob & Hc & Hp & Hi & Hblob & Hfirst & ->)].
    unfold imageBlob, Gemini.imagePartFromResponse. rewrite Hc. cbn. rewrite Hp. cbn.
    destruct (List.find _ parts) as [part'|] eqn:Hfind.
    + destruct (find_first_inline parts part' Hfind) as (i' & blob' & Hi' & Hblob' & Hfirst').
      cbn. rewrite Hblob'.
      destruct (Nat.lt_trichotomy i i') as [Hlt|[->|Hgt]].
      * rewrite (Hfirst' i part Hlt Hi) in Hblob. done.
      * rewrite Hi in Hi'. injection Hi' as <-. congruence.
      * rewrite (Hfirst i' part' Hgt Hi') in Hblob'. done.
    + assert (Hin : In part parts)
        by (apply list_elem_of_In; by eapply list_elem_of_lookup_2).
      pose proof (List.find_none _ _ Hfind part Hin) as Hf. cbn in Hf.
      rewrite bool_decide_eq_true_2 in Hf by (by rewrite Hblob). done.
Qed.

(** X15.  The outcome of [handleApiResponse] tells the kinds of
    response apart: a blocked prompt, a response with an image, one that
    stopped for an abnormal finish reason, and one that simply has no
    image never lead to the same outcome, whatever the contexts; in
    particular the three error messages never coincide. *)
Theorem handleApiResponse_kinds (r1 r2 : Gemini.Response) (c1 c2 : string) :
  Gemini.handleApiResponse r1 c1 = Gemini.handleApiResponse r2 c2 →
  responseKind r1 = responseKind r2.
Proof.
  rewrite !handleApiResponse_cases. unfold responseKind.
  destruct (isBlocked r1), (isBlocked r2),
    (imageBlob r1) as [b1|], (imageBlob r2) as [b2|],
    (isStopped r1), (isStopped r2);
    cbn; intros H; try reflexivity; messages_clash H.
Qed.

(** X16.  What the service writes, it reads back, and so does the
    component: for a response that is not blocked and whose first image
    part has a plain MIME type and a payload without comma,
    [handleApiResponse] returns a URL from which [fileToPart] recovers
    that MIME type and payload, and from which [dataURLtoFile] builds a
    file with the bytes of the payload whose type is that MIME type as
    the [File] constructor keeps it (in lower case, or empty when it has
    a character outside U+0020..U+007E).  On every string the two
    parsers accept and reject alike. *)
Theorem service_url_round_trip (atob : string → Exc string)
    (response : Gemini.Response) (context mime payload filename : string) :
  isBlocked response = false →
  imageBlob response = Some (Gemini.mkBlob (Some mime) (Some payload)) →
  plainMime mime →
  allChars notComma payload = true →
  ∃ url,
    Gemini.handleApiResponse response context = Ok url ∧
    Gemini.fileToPart_parse url = Ok (Gemini.mkBlob (Some mime) (Some payload)) ∧
    dataURLtoFile atob url filename
      = match atob payload with
        | Ok bstr =>
            Ok (mkFile filename (if allPrintable mime then lowercase mime else "") bstr)
        | Throw e => Throw e
        end ∧
    ∀ dataurl,
      dataURLtoFile atob dataurl filename
        = match Gemini.fileToPart_parse dataurl with
          | Ok blob =>
              match atob (Gemini.template (Gemini.data blob)) with
              | Ok bstr =>
                  let type := Gemini.template (Gemini.mimeType blob) in
                  Ok (mkFile filename (if allPrintable type then lowercase type else "") bstr)
              | Throw e => Throw e
              end
          | Throw e => Throw e
          end.
Proof.
  intros Hblocked Hblob Hmime Hpayload.
  exists ("data:" +:+ mime +:+ ";base64," +:+ payload).
  split; [by rewrite handleApiResponse_cases, Hblocked, Hblob|].
  split.
  { destruct Hmime as [Hne Hplain]. unfold Gemini.fileToPart_parse.
    rewrite (split_dataUrl mime payload Hplain), (split_on_no_comma payload Hpayload).
    by rewrite (match_colon_group_dataUrl mime Hplain), Hne. }
  split; [exact (dataURLtoFile_dataUrl atob mime payload filename Hmime Hpayload)|].
  intros dataurl. unfold dataURLtoFile, Gemini.fileToPart_parse.
  destruct (JS.split_on _ dataurl) as [|a0 [|a1 rest]]; [done..|].
  destruct (JS.match_colon_group a0) as [m|]; [|done].
  by destruct (JS.truthy m).
Qed.

(** X17.  Every state that the events of the component reach, user
    events and call completions alike, uploads creating ids that are new,
    is well formed: each History Stack has an entry and a cursor on one
    of its entries, the ids of the entries are distinct and not empty,
    and the active id and the selected ids name present entries. *)
Theorem reachable_states_well_formed (atob : string → Exc string) (st : AppState) :
  appReachable atob st →
  (∀ img, img ∈ images st →
     history img ≠ [] ∧
     0 ≤ historyIndex img ≤ Z.of_nat (length (history img)) - 1) ∧
  NoDup (img_id <$> images st) ∧
  (∀ img, img ∈ images st → img_id img ≠ "") ∧
  (∀ a, activeImageId st = Some a → a ∈ img_id <$> images st) ∧
  (∀ x, x ∈ selectedImageIds st → x ∈ img_id <$> images st).
Proof.
  intros (Hvalid & Hnodup & Htruthy & Hactive & Hsel)%wellFormed_reachable.
  split_and!; try done.
  - intros img Hin. destruct (Hvalid img Hin) as [Hlo Hhi].
    split; [|lia]. intros Hnil. rewrite Hnil in Hhi. cbn in Hhi. lia.
  - intros img Hin Hempty. rewrite Forall_forall in Htruthy.
    assert (Ht : JS.truthy (img_id img) = true).
    { apply Htruthy, list_elem_of_fmap. by exists img. }
    by rewrite Hempty in Ht.
Qed.

(** X18.  In every reachable state an active image has a file to show:
    no image is shown exactly when no image is active, a retouch request
    reports "no image loaded" exactly then, and every target of a filter
    or adjustment is dispatched with a file. *)
Theorem reachable_active_has_current (atob : string → Exc string) (st : AppState) :
  appReachable atob st →
  (currentImage st = None ↔ activeImageId st = None) ∧
  (firstUnmet st = Some ActiveImagePresent ↔ activeImageId st = None) ∧
  (∀ operationName,
     match (handleBatchOperation_begin operationName st).2 with
     | NoDispatch => True
     | SingleDispatch target => is_Some (callArgument target)
     | MultiDispatch targets => Forall (λ t, is_Some (callArgument t)) targets
     end).
Proof.
  intros Hwf%wellFormed_reachable.
  assert (Hcur : currentImage st = None ↔ activeImageId st = None).
  { split.
    - intros Hnone. destruct (activeImageId st) as [a|] eqn:Ha; [|done].
      destruct (wellFormed_active st a Hwf Ha) as (_ & img & file & _ & _ & _ & _ & Hc).
      by rewrite Hc in Hnone.
    - intros Ha. unfold currentImage, activeImageState. by rewrite Ha, findImage_None. }
  split; [done|]. split.
  - unfold firstUnmet. cbn [List.find checkOrder preconditionMet].
    destruct (activeImageId st) as [a|] eqn:Ha.
    + destruct (wellFormed_active st a Hwf Ha) as (Ht & img & file & _ & _ & _ & _ & Hc).
      rewrite Hc. cbn. rewrite Ht. cbn.
      split; [|done].
      destruct (JS.truthy (JS.trim (prompt st))); cbn; [|done].
      by destruct (bool_decide (is_Some (editHotspot st))).
    + rewrite (proj2 Hcur eq_refl). done.
  - intros operationName. destruct Hwf as (Hvalid & _).
    assert (Hall : ∀ t, t ∈ filter (λ img, img_id img ∈ selectedImageIds st) (images st) →
                        is_Some (callArgument t)).
    { intros t [_ Hin]%list_elem_of_filter. by apply callArgument_valid, Hvalid. }
    unfold handleBatchOperation_begin.
    destruct (filter _ (images st)) as [|a [|b rest]]; cbn [snd]; [done|..].
    + apply Hall, list_elem_of_here.
    + by apply Forall_forall.
Qed.

(** X19.  In a reachable state an undo that is available moves the
    cursor of the active entry one entry back over the same entries, and
    the file shown is the entry before the cursor; a redo that is
    available moves it one entry forward, and the file shown is the entry
    after the cursor. *)
Theorem undo_redo_step (atob : string → Exc string) (st : AppState) (img : ImageState) :
  appReachable atob st →
  activeImageState st = Some img →
  (canUndo st = true →
     activeImageState (handleUndo st)
       = Some (withHistoryIndex (historyIndex img - 1) img) ∧
     currentImage (handleUndo st) = history img !! Z.to_nat (historyIndex img - 1) ∧
     is_Some (currentImage (handleUndo st))) ∧
  (canRedo st = true →
     activeImageState (handleRedo st)
       = Some (withHistoryIndex (historyIndex img + 1) img) ∧
     currentImage (handleRedo st) = history img !! Z.to_nat (historyIndex img + 1) ∧
     is_Some (currentImage (handleRedo st))).
Proof.
  intros Hwf%wellFormed_reachable Hact.
  pose proof Hact as [_ Hid]%findImage_Some. symmetry in Hid.
  destruct (wellFormed_active st (img_id img) Hwf Hid)
    as (Htruthy & img' & file & Hact' & _ & _ & [Hlo Hhi] & _).
  rewrite Hact in Hact'. injection Hact' as <-.
  assert (Ht : JS.truthy_opt (activeImageId st) = true) by (by rewrite Hid).
  split.
  - intros Hcan.
    assert (Hpos : 0 < historyIndex img).
    { unfold canUndo in Hcan. rewrite Hact in Hcan. by apply Z.ltb_lt in Hcan. }
    assert (Hguard : canUndo st && JS.truthy_opt (activeImageId st) = true)
      by (by rewrite Hcan, Ht).
    pose proof (activeImageState_handleUndo st img Hact Hguard) as Hnew.
    assert (Hcur : currentImage (handleUndo st)
                   = history img !! Z.to_nat (historyIndex img - 1)).
    { unfold currentImage. rewrite Hnew. cbn. unfold JS.index.
      by rewrite (proj2 (Z.ltb_ge _ _)) by lia. }
    split; [done|]. split; [done|].
    rewrite Hcur. apply lookup_lt_is_Some. lia.
  - intros Hcan.
    assert (Hroom : historyIndex img < Z.of_nat (length (history img)) - 1).
    { unfold canRedo in Hcan. rewrite Hact in Hcan. by apply Z.ltb_lt in Hcan. }
    assert (Hguard : canRedo st && JS.truthy_opt (activeImageId st) = true)
      by (by rewrite Hcan, Ht).
    pose proof (activeImageState_handleRedo st img Hact Hguard) as Hnew.
    assert (Hcur : currentImage (handleRedo st)
                   = history img !! Z.to_nat (historyIndex img + 1)).
    { unfold currentImage. rewrite Hnew. cbn. unfold JS.index.
      by rewrite (proj2 (Z.ltb_ge _ _)) by lia. }
    split; [done|]. split; [done|].
    rewrite Hcur. apply lookup_lt_is_Some. lia.
Qed.

(** X20.  An upload of files with new ids into a reachable state keeps
    the image that is being edited; when no image was active, the first
    uploaded file becomes the active image and is the file shown. *)
Theorem upload_keeps_or_shows_first (atob : string → Exc string)
    (u : Upload) (rest : list Upload) (st : AppState) :
  appReachable atob st →
  freshUpload (u :: rest) st →
  let st' := handleImageUploads (u :: rest) st in
  (activeImageId st ≠ None →
     activeImageId st' = activeImageId st ∧
     activeImageState st' = activeImageState st ∧
     currentImage st' = currentImage st) ∧
  (activeImageId st = None →
     activeImageId st' = Some (img_id (newImageOf u)) ∧
     currentImage st' = Some (upload_file u)).
Proof.
  intros Hwf%wellFormed_reachable Hfresh st'. subst st'.
  assert (Hstate : activeImageState (handleImageUploads (u :: rest) st)
                   = findImage (activeImageId (handleImageUploads (u :: rest) st))
                       (images st ++ map newImageOf (u :: rest))).
  { unfold activeImageState. by rewrite images_handleImageUploads. }
  rewrite activeImageId_handleImageUploads in Hstate.
  rewrite activeImageId_handleImageUploads.
  split.
  - intros Hsome. destruct (activeImageId st) as [a|] eqn:Ha; [|done].
    destruct (wellFormed_active st a Hwf Ha) as (Ht & img & file & Hact & _).
    cbn [JS.truthy_opt] in *. rewrite Ht in *.
    assert (Heq : activeImageState (handleImageUploads (u :: rest) st) = activeImageState st).
    { rewrite Hstate, findImage_app. unfold activeImageState in Hact.
      rewrite Ha in Hact. rewrite Hact. unfold activeImageState. by rewrite Ha, Hact. }
    split; [done|]. split; [done|]. unfold currentImage. by rewrite Heq.
  - intros Hnone. rewrite Hnone in *. cbn [JS.truthy_opt] in *.
    split; [done|]. unfold currentImage. rewrite Hstate, findImage_app.
    rewrite findImage_absent.
    + cbn [map]. rewrite findImage_cons, decide_True by done. done.
    + unfold freshUpload in Hfresh. apply NoDup_app in Hfresh as (_ & Hdisj & _).
      intros Hin. apply (Hdisj _ Hin). cbn [map fmap list_fmap]. apply list_elem_of_here.
Qed.

(** * The claims on sample states *)

Example sample_ids :
  img_id <$> images Sample.threeSelected = [Sample.idA; Sample.idB; Sample.idC].
Proof. reflexivity. Qed.

Example sample_three_entries :
  images Sample.threeEntries
    = [mkImageState Sample.idA "a.png" Sample.fileA
         [Sample.fileA; Sample.fileB; Sample.fileC] 2].
Proof. reflexivity. Qed.

(** The guards of a retouch request on sample states: no image at all;
    an image, a focus point and a blank instruction; an image and an
    instruction but no focus point. *)
Example retouch_without_image :
  handleGenerate_begin
    (setEditHotspot (Some (mkHotspot 1 1)) (setPrompt "brighter" initialState))
  = (setError (Some "Tidak ada gambar yang dimuat untuk diedit.")
       (setEditHotspot (Some (mkHotspot 1 1)) (setPrompt "brighter" initialState)),
     None).
Proof. reflexivity. Qed.

Example retouch_with_blank_instruction :
  (handleGenerate_begin
     (setEditHotspot (Some (mkHotspot 1 1)) (setPrompt "   " Sample.twoImages))).2 = None ∧
  error (handleGenerate_begin
           (setEditHotspot (Some (mkHotspot 1 1)) (setPrompt "   " Sample.twoImages))).1
    = Some "Silakan masukkan deskripsi untuk editan Anda.".
Proof. split; reflexivity. Qed.

Example retouch_without_focus_point :
  (handleGenerate_begin (setPrompt "brighter" Sample.twoImages)).2 = None ∧
  error (handleGenerate_begin (setPrompt "brighter" Sample.twoImages)).1
    = Some "Silakan klik pada gambar untuk memilih area yang akan diedit.".
Proof. split; reflexivity. Qed.

(** The example of C2: entries A, B, C at cursor 2; undo moves the cursor
    to 1; appending D leaves A, B, D with the cursor at 2. *)
Lemma addImageToHistory_branches_witness :
  let image := mkImageState Sample.idA "a.png" Sample.fileA
                 [Sample.fileA; Sample.fileB; Sample.fileC] 1 in
  images (handleUndo Sample.threeEntries) !! 0%nat = Some image ∧
  img_id image = Sample.idA ∧
  historyValid image ∧
  ∃ image',
    images (addImageToHistory Sample.fileD Sample.idA (handleUndo Sample.threeEntries))
      !! 0%nat = Some image' ∧
    history image' = [Sample.fileA; Sample.fileB; Sample.fileD] ∧
    historyIndex image' = Z.of_nat (length (history image')) - 1 ∧
    historyIndex image' = 2 ∧
    img_id image' = Sample.idA ∧
    img_name image' = "a.png" ∧
    originalFile image' = Sample.fileA.
Proof.
  intros image.
  assert (H1 : images (handleUndo Sample.threeEntries) !! 0%nat = Some image)
    by reflexivity.
  assert (H2 : img_id image = Sample.idA) by reflexivity.
  assert (H3 : historyValid image) by (unfold historyValid; cbn; lia).
  exact (conj H1 (conj H2 (conj H3
    (addImageToHistory_branches Sample.fileD Sample.idA
       (handleUndo Sample.threeEntries) 0 image H1 H2 H3)))).
Defined.

(** C9 on a state that the handlers reach: the only image is deleted
    while its filter is pending, then the call fulfils. *)
Lemma handleAcceptPreview_no_active_witness :
  let file := mkFile "filter-a.png" "image/png" "ZWRpdGVk" in
  previewImage Sample.previewWithoutActive = Some file ∧
  activeImageId Sample.previewWithoutActive = None ∧
  handleAcceptPreview Sample.previewWithoutActive
    = handleCancelPreview Sample.previewWithoutActive ∧
  images (handleAcceptPreview Sample.previewWithoutActive)
    = images Sample.previewWithoutActive ∧
  previewImage (handleAcceptPreview Sample.previewWithoutActive) = None.
Proof.
  intros file.
  assert (H1 : previewImage Sample.previewWithoutActive = Some file) by reflexivity.
  assert (H2 : activeImageId Sample.previewWithoutActive = None) by reflexivity.
  exact (conj H1 (conj H2
    (handleAcceptPreview_no_active Sample.previewWithoutActive file H1 H2))).
Defined.

(** C10 with A active and edited once: B, at position 1, is left alone by
    an append to A and by undo, redo and reset of A. *)
Lemma other_images_unchanged_witness :
  let st := addImageToHistory Sample.fileC Sample.idA Sample.twoImages in
  images st !! 1%nat = Some Sample.imageB ∧
  img_id Sample.imageB ≠ Sample.idA ∧
  activeImageId st = Some Sample.idA ∧
  images (addImageToHistory Sample.fileD Sample.idA st) !! 1%nat = Some Sample.imageB ∧
  images (handleUndo st) !! 1%nat = Some Sample.imageB ∧
  images (handleRedo st) !! 1%nat = Some Sample.imageB ∧
  images (handleReset st) !! 1%nat = Some Sample.imageB.
Proof.
  intros st.
  assert (H1 : images st !! 1%nat = Some Sample.imageB) by reflexivity.
  assert (H2 : img_id Sample.imageB ≠ Sample.idA) by discriminate.
  assert (H3 : activeImageId st = Some Sample.idA) by reflexivity.
  destruct (other_images_unchanged Sample.idA Sample.fileD st 1 Sample.imageB H1 H2)
    as [Happend Hactive].
  exact (conj H1 (conj H2 (conj H3 (conj Happend (Hactive H3))))).
Defined.

(** C7 after an edit of A, an undo, and a switch to B: A has two entries
    and its cursor at 0, B has one entry, and for B, which is active, undo
    and redo change nothing. *)
Lemma history_cursor_invariant_witness :
  let ops := [OpAppend Sample.fileC Sample.idA; OpUndo; OpSelect Sample.idB] in
  let st := runOps ops (handleImageUploads [Sample.uploadA; Sample.uploadB] initialState) in
  Sample.imageB ∈ images st ∧
  activeImageState st = Some Sample.imageB ∧
  historyIndex Sample.imageB = 0 ∧
  historyIndex Sample.imageB = Z.of_nat (length (history Sample.imageB)) - 1 ∧
  (history Sample.imageB ≠ [] ∧
   0 ≤ historyIndex Sample.imageB ≤ Z.of_nat (length (history Sample.imageB)) - 1) ∧
  handleUndo st = st ∧
  handleRedo st = st.
Proof.
  intros ops st.
  assert (H1 : Sample.imageB ∈ images st)
    by (apply (list_elem_of_lookup_2 _ 1%nat); reflexivity).
  assert (H2 : activeImageState st = Some Sample.imageB) by reflexivity.
  assert (H3 : historyIndex Sample.imageB = 0) by reflexivity.
  assert (H4 : historyIndex Sample.imageB
               = Z.of_nat (length (history Sample.imageB)) - 1) by reflexivity.
  destruct (history_cursor_invariant [Sample.uploadA; Sample.uploadB] ops)
    as (Hinv & Hundo & Hredo).
  exact (conj H1 (conj H2 (conj H3 (conj H4
    (conj (Hinv Sample.imageB H1)
       (conj (Hundo Sample.imageB H2 H3) (Hredo Sample.imageB H2 H4))))))).
Defined.

(** C8 when the active image is the only one: no entry, no active id, and
    the id is out of the selection. *)
Lemma handleDeleteImage_references_witness :
  let st' := handleDeleteImage Sample.idA Sample.oneImage in
  activeImageId Sample.oneImage = Some Sample.idA ∧
  reachable Sample.oneImage ∧
  images st' = [] ∧
  activeImageId st' = None ∧
  (Sample.idA ∉ selectedImageIds st') ∧
  referencesPresent st'.
Proof.
  intros st'.
  assert (H1 : activeImageId Sample.oneImage = Some Sample.idA) by reflexivity.
  assert (H2 : reachable Sample.oneImage)
    by exact (reachable_event (EvUpload [Sample.uploadA]) initialState reachable_initial I).
  destruct (handleDeleteImage_references Sample.idA Sample.oneImage)
    as (Himages & Hactive & Hselected & _ & Hrefs).
  exact (conj H1 (conj H2 (conj Himages (conj (Hactive H1)
    (conj Hselected (Hrefs H2)))))).
Defined.

(** C4 as stated fails: of two files uploaded together, the id of the
    second is not in the selection. *)
Lemma uploadSelectsAll_counterexample :
  ¬ uploadSelectsAll [Sample.uploadA; Sample.uploadB] initialState.
Proof.
  intros Hall.
  assert (Hin : Sample.uploadB ∈ [Sample.uploadA; Sample.uploadB])
    by (apply list_elem_of_further, list_elem_of_here).
  apply Hall in Hin.
  apply elem_of_union in Hin as [Hin|Hin].
  - destruct (not_elem_of_empty _ Hin).
  - apply elem_of_singleton in Hin. discriminate Hin.
Qed.

(** C5 as stated fails: the retouch of A, accepted after the user made B
    active while the call was pending, lands in the History Stack of B and
    leaves that of A as it was. *)
Lemma acceptCommitsToDispatchOwner_counterexample :
  ¬ acceptCommitsToDispatchOwner Sample.atob Sample.readyToRetouch
      Sample.idA Sample.idB 1700000000500 Sample.editedUrl.
Proof.
  intros Hclaim.
  specialize (Hclaim Sample.retouchDispatched
    (mkGenerateCall Sample.fileA "make the sky blue" (mkHotspot 10 20))
    Sample.editedFile eq_refl eq_refl eq_refl).
  vm_compute in Hclaim. discriminate Hclaim.
Qed.

Example retouch_lands_in_switched_image :
  activeImageId Sample.readyToRetouch = Some Sample.idA ∧
  history <$> images (handleAcceptPreview Sample.retouchSettled)
    = [[Sample.fileA]; [Sample.fileB; Sample.editedFile]].
Proof. split; reflexivity. Qed.

(** C5 as amended, with no switch: the retouch of A lands in A. *)
Lemma handleAcceptPreview_appends_to_active_witness :
  let call := mkGenerateCall Sample.fileA "make the sky blue" (mkHotspot 10 20) in
  activeImageId Sample.readyToRetouch = Some Sample.idA ∧
  handleGenerate_begin Sample.readyToRetouch = (Sample.retouchDispatched, Some call) ∧
  dataURLtoFile Sample.atob Sample.editedUrl ("edited-" +:+ pretty 1700000000500%N +:+ ".png")
    = Ok Sample.editedFile ∧
  activeImageId Sample.retouchSettledInPlace = Some Sample.idA ∧
  previewImage Sample.retouchSettledInPlace = Some Sample.editedFile ∧
  handleAcceptPreview Sample.retouchSettledInPlace
    = setPreviewImage None
        (addImageToHistory Sample.editedFile Sample.idA Sample.retouchSettledInPlace) ∧
  history <$> images (handleAcceptPreview Sample.retouchSettledInPlace)
    = [[Sample.fileA; Sample.editedFile]; [Sample.fileB]].
Proof.
  intros call.
  assert (H1 : activeImageId Sample.readyToRetouch = Some Sample.idA) by reflexivity.
  assert (H2 : handleGenerate_begin Sample.readyToRetouch
               = (Sample.retouchDispatched, Some call)) by reflexivity.
  assert (H3 : dataURLtoFile Sample.atob Sample.editedUrl
                 ("edited-" +:+ pretty 1700000000500%N +:+ ".png")
               = Ok Sample.editedFile) by reflexivity.
  assert (H4 : previewImage Sample.retouchSettledInPlace
               = previewImage (handleGenerate_settle Sample.atob 1700000000500
                                 (Fulfilled Sample.editedUrl) Sample.retouchDispatched))
    by reflexivity.
  assert (H5 : activeImageId Sample.retouchSettledInPlace = Some Sample.idA)
    by reflexivity.
  destruct (handleAcceptPreview_appends_to_active Sample.atob 1700000000500
              Sample.editedUrl Sample.editedFile Sample.readyToRetouch
              Sample.retouchDispatched call Sample.idA Sample.retouchDispatched
              Sample.retouchSettledInPlace H1 H2 H3 H4 H5)
    as (_ & _ & Hpreview & Haccept & Himages).
  refine (conj H1 (conj H2 (conj H3 (conj H5 (conj Hpreview (conj Haccept _)))))).
  rewrite Himages. reflexivity.
Defined.

(** X21 on the batch of the specification: targets A, B, C, the call
    for B rejected.  A and C each get one more entry, B keeps its single
    entry, and the message names b.png alone. *)
Lemma batch_settles_per_target_witness :
  handleBatchOperation_begin "filter" Sample.threeSelected
    = (Sample.batchDispatched, MultiDispatch Sample.batchTargets) ∧
  NoDup (img_id <$> images Sample.threeSelected) ∧
  length Sample.batchResults = length Sample.batchTargets ∧
  resultsDecode Sample.atob "filter" Sample.batchTargets Sample.batchResults ∧
  ∃ st',
    handleBatchOperation_settleBatch Sample.atob "filter" Sample.batchTargets
      Sample.batchResults Sample.batchDispatched = Ok st' ∧
    images st' !! 0%nat
      = Some (mkImageState Sample.idA "a.png" Sample.fileA
                [Sample.fileA; Sample.filteredA] 1) ∧
    images st' !! 1%nat = Some Sample.imageB ∧
    images st' !! 2%nat
      = Some (mkImageState Sample.idC "c.png" Sample.fileC
                [Sample.fileC; Sample.filteredC] 1) ∧
    error st'
      = Some "Gagal menerapkan filter pada 1 gambar: b.png. Gambar lainnya berhasil diperbarui." ∧
    isLoading st' = false.
Proof.
  assert (H1 : handleBatchOperation_begin "filter" Sample.threeSelected
               = (Sample.batchDispatched, MultiDispatch Sample.batchTargets))
    by reflexivity.
  assert (H2 : NoDup (img_id <$> images Sample.threeSelected)).
  { apply (bool_decide_unpack _). vm_compute. exact I. }
  assert (H3 : length Sample.batchResults = length Sample.batchTargets)
    by reflexivity.
  assert (H4 : resultsDecode Sample.atob "filter" Sample.batchTargets Sample.batchResults).
  { intros [|[|[|k]]] t url Hk Hr; try discriminate Hr; try discriminate Hk;
      injection Hk as <-; injection Hr as <-; eexists; vm_compute; reflexivity. }
  destruct (batch_settles_per_target Sample.atob "filter" Sample.threeSelected
              Sample.batchDispatched Sample.batchTargets Sample.batchResults
              Sample.batchDispatched H1 H2 H3 H4)
    as (_ & st' & m & Hok & _ & Hfulfilled & Hrejected & _ & Herror & _ & Hloading & _).
  refine (conj H1 (conj H2 (conj H3 (conj H4 _)))).
  exists st'. split; [exact Hok|].
  destruct (Hfulfilled 0%nat Sample.imageA _ 0%nat Sample.imageA
              eq_refl eq_refl eq_refl eq_refl) as (fa & a' & Hfa & Ha & -> & _).
  destruct (Hfulfilled 2%nat Sample.imageC _ 2%nat Sample.imageC
              eq_refl eq_refl eq_refl eq_refl) as (fc & c' & Hfc & Hc & -> & _).
  injection Hfa as <-. injection Hfc as <-.
  split; [exact Ha|].
  split; [exact (Hrejected 1%nat Sample.imageB _ 1%nat Sample.imageB
                   eq_refl eq_refl eq_refl eq_refl)|].
  split; [exact Hc|].
  split; [exact Herror|exact Hloading].
Defined.

(** C1 at the failing batch: the call for A fulfils with a good data
    URL, the call for B is rejected, and the call for C fulfils with the
    URL that the service builds from an image part whose MIME type is
    the empty string.  The loop throws at C. *)
Lemma batch_stops_at_undecodable_result_witness :
  let results := [Fulfilled "data:image/png;base64,QQ==";
                  Rejected (ErrorObject "quota exceeded");
                  Fulfilled "data:;base64,Qw=="] in
  Sample.batchTargets !! 2%nat = Some Sample.imageC ∧
  results !! 2%nat = Some (Fulfilled "data:;base64,Qw==") ∧
  dataURLtoFile Sample.atob "data:;base64,Qw==" ("filter" +:+ "-" +:+ img_name Sample.imageC)
    = Throw (ErrorObject "Could not parse MIME type from data URL") ∧
  ∃ e', handleBatchOperation_settleBatch Sample.atob "filter" Sample.batchTargets
          results Sample.batchDispatched = Throw e'.
Proof.
  intros results.
  assert (H1 : Sample.batchTargets !! 2%nat = Some Sample.imageC) by reflexivity.
  assert (H2 : results !! 2%nat = Some (Fulfilled "data:;base64,Qw==")) by reflexivity.
  assert (H3 : dataURLtoFile Sample.atob "data:;base64,Qw=="
                 ("filter" +:+ "-" +:+ img_name Sample.imageC)
               = Throw (ErrorObject "Could not parse MIME type from data URL"))
    by (vm_compute; reflexivity).
  exact (conj H1 (conj H2 (conj H3
    (batch_stops_at_undecodable_result Sample.atob "filter" Sample.batchTargets results
       Sample.batchDispatched 2 Sample.imageC "data:;base64,Qw=="
       (ErrorObject "Could not parse MIME type from data URL") H1 H2 H3)))).
Defined.

(** The same batch evaluated, for every decoder that accepts the payload
    of A: the error thrown is that of [dataURLtoFile] at C, and as a step
    of the component nothing is written, so A keeps its single entry, no
    error is shown and the loading flag stays raised. *)
Example batch_failing_input :
  handleBatchOperation_settleBatch Sample.atob "filter" Sample.batchTargets
    [Fulfilled "data:image/png;base64,QQ=="; Rejected (ErrorObject "quota exceeded");
     Fulfilled "data:;base64,Qw=="]
    Sample.batchDispatched
  = Throw (ErrorObject "Could not parse MIME type from data URL") ∧
  images Sample.batchDispatched !! 0%nat = Some Sample.imageA ∧
  error Sample.batchDispatched = None ∧
  isLoading Sample.batchDispatched = true.
Proof. repeat split; vm_compute; reflexivity. Qed.

(** The URL of C above is what the service returns for a response whose
    image part has an empty MIME type: it builds the URL unchecked. *)
Example service_url_without_mime_type :
  Gemini.handleApiResponse
    (Gemini.mkResponse None
       (Some [Gemini.mkCandidate
                (Some [Gemini.mkPart (Some (Gemini.mkBlob (Some "") (Some "Qw==")))])
                (Some "STOP")])
       None)
    "filter"
  = Ok "data:;base64,Qw==".
Proof. vm_compute; reflexivity. Qed.

(** A fulfilled value that does not even have a comma has the same
    effect. *)
Example batch_with_undecodable_result_throws :
  handleBatchOperation_settleBatch Sample.atob "filter" Sample.batchTargets
    [Fulfilled "not a data url"; Rejected NonError; Fulfilled "data:image/png;base64,Qw=="]
    Sample.batchDispatched
  = Throw (ErrorObject "Invalid data URL").
Proof. reflexivity. Qed.

(** * The further properties on sample states *)

Example service_outcomes :
  Gemini.handleApiResponse Case.imageResponse "mengedit"
    = Ok "data:image/png;base64,ZWRpdGVk" ∧
  Gemini.handleApiResponse Case.blockedResponse "mengedit"
    = Throw (ErrorObject "Permintaan diblokir saat mengedit. Alasan: SAFETY. ") ∧
  Gemini.handleApiResponse Case.stoppedResponse "menerapkan filter"
    = Throw (ErrorObject
        "Pembuatan gambar untuk menerapkan filter berhenti secara tak terduga. Alasan: SAFETY. Ini sering terkait dengan pengaturan keamanan.") ∧
  Gemini.handleApiResponse Case.textOnlyResponse "menerapkan filter"
    = Throw (ErrorObject
        ("Model AI tidak mengembalikan gambar untuk menerapkan filter. Model merespons dengan teks: "
         +:+ Gemini.quote +:+ "I cannot edit this image." +:+ Gemini.quote)).
Proof. repeat split; vm_compute; reflexivity. Qed.

(** X1 on A with entries A, B, C. *)
Lemma handleReset_restores_original_witness :
  images Sample.threeEntries !! 0%nat = Some Case.entryAtEnd ∧
  Some (img_id Case.entryAtEnd) = activeImageId Sample.threeEntries ∧
  currentImage (handleReset Sample.threeEntries) = Some Sample.fileA ∧
  canUndo (handleReset Sample.threeEntries) = false ∧
  canRedo (handleReset Sample.threeEntries) = false ∧
  ∃ img', images (handleReset Sample.threeEntries) !! 0%nat = Some img' ∧
          history img' = [Sample.fileA] ∧ historyIndex img' = 0 ∧
          img_id img' = Sample.idA ∧ originalFile img' = Sample.fileA.
Proof.
  assert (H1 : images Sample.threeEntries !! 0%nat = Some Case.entryAtEnd) by reflexivity.
  assert (H2 : Some (img_id Case.entryAtEnd) = activeImageId Sample.threeEntries)
    by reflexivity.
  destruct (handleReset_restores_original Sample.threeEntries)
    as (_ & Hcur & Hundo & Hredo & Hentries).
  exact (conj H1 (conj H2 (conj Hcur (conj Hundo (conj Hredo
    (Hentries 0%nat Case.entryAtEnd H1 H2)))))).
Defined.

(** X2 with the cursor on B of A, B, C. *)
Lemma undo_redo_inverse_witness :
  activeImageState Case.middleOfHistory = Some Case.entryInMiddle ∧
  historyValid Case.entryInMiddle ∧
  canUndo Case.middleOfHistory = true ∧
  canRedo Case.middleOfHistory = true ∧
  images (handleRedo (handleUndo Case.middleOfHistory)) = images Case.middleOfHistory ∧
  images (handleUndo (handleRedo Case.middleOfHistory)) = images Case.middleOfHistory.
Proof.
  assert (H1 : activeImageState Case.middleOfHistory = Some Case.entryInMiddle)
    by reflexivity.
  assert (H2 : historyValid Case.entryInMiddle) by (unfold historyValid; cbn; lia).
  assert (H3 : canUndo Case.middleOfHistory = true) by reflexivity.
  assert (H4 : canRedo Case.middleOfHistory = true) by reflexivity.
  destruct (undo_redo_inverse Case.middleOfHistory Case.entryInMiddle H1 H2)
    as [Hur Hru].
  exact (conj H1 (conj H2 (conj H3 (conj H4 (conj (Hur H3) (Hru H4)))))).
Defined.

(** X3 on the retouch of A that settled with no switch. *)
Lemma accept_undo_redo_witness :
  let accepted := handleAcceptPreview Sample.retouchSettledInPlace in
  previewImage Sample.retouchSettledInPlace = Some Sample.editedFile ∧
  activeImageId Sample.retouchSettledInPlace = Some Sample.idA ∧
  JS.truthy Sample.idA = true ∧
  activeImageState Sample.retouchSettledInPlace = Some Sample.imageA ∧
  historyValid Sample.imageA ∧
  currentImage accepted = Some Sample.editedFile ∧
  canUndo accepted = true ∧
  canRedo accepted = false ∧
  currentImage (handleUndo accepted) = Some Sample.fileA ∧
  currentImage (handleRedo (handleUndo accepted)) = Some Sample.editedFile.
Proof.
  intros accepted.
  assert (H1 : previewImage Sample.retouchSettledInPlace = Some Sample.editedFile)
    by reflexivity.
  assert (H2 : activeImageId Sample.retouchSettledInPlace = Some Sample.idA)
    by reflexivity.
  assert (H3 : JS.truthy Sample.idA = true) by reflexivity.
  assert (H4 : activeImageState Sample.retouchSettledInPlace = Some Sample.imageA)
    by reflexivity.
  assert (H5 : historyValid Sample.imageA) by (unfold historyValid; cbn; lia).
  exact (conj H1 (conj H2 (conj H3 (conj H4 (conj H5
    (accept_undo_redo Sample.retouchSettledInPlace Sample.editedFile Sample.idA
       Sample.imageA H1 H2 H3 H4 H5)))))).
Defined.

(** X5 on three images of which one is selected. *)
Lemma select_all_dispatches_to_all_witness :
  (1 < length (images Case.threeImages))%nat ∧
  handleBatchOperation_begin "filter" (handleSelectAll Case.threeImages)
    = (loadingState (handleSelectAll Case.threeImages),
       MultiDispatch [Sample.imageA; Sample.imageB; Sample.imageC]) ∧
  (handleBatchOperation_begin "filter" (handleDeselectAll Case.threeImages)).2
    = NoDispatch.
Proof.
  assert (H1 : (1 < length (images Case.threeImages))%nat) by (vm_compute; lia).
  destruct (select_all_dispatches_to_all "filter" Case.threeImages)
    as (_ & Hall & Hnone).
  exact (conj H1 (conj (Hall H1) Hnone)).
Defined.

(** X7 on the batch A, B, C with every call rejected. *)
Lemma batch_all_rejected_witness :
  Forall (λ r, isRejected r = true) Case.allRejected ∧
  length Case.allRejected = length Sample.batchTargets ∧
  Sample.batchTargets ≠ [] ∧
  handleBatchOperation_settleBatch Sample.atob "filter" Sample.batchTargets
    Case.allRejected Sample.batchDispatched
  = Ok (setIsLoading false
          (setError
             (Some "Gagal menerapkan filter pada 3 gambar: a.png, b.png, c.png. Gambar lainnya berhasil diperbarui.")
             Sample.batchDispatched)).
Proof.
  assert (H1 : Forall (λ r, isRejected r = true) Case.allRejected)
    by (repeat constructor).
  assert (H2 : length Case.allRejected = length Sample.batchTargets) by reflexivity.
  assert (H3 : Sample.batchTargets ≠ []) by discriminate.
  exact (conj H1 (conj H2 (conj H3
    (batch_all_rejected Sample.atob "filter" Sample.batchTargets Case.allRejected
       Sample.batchDispatched H1 H2 H3)))).
Defined.


(** X9: B is deleted while A is active. *)
Lemma delete_other_keeps_current_witness :
  activeImageId Sample.twoImages ≠ Some Sample.idB ∧
  activeImageId (handleDeleteImage Sample.idB Sample.twoImages) = Some Sample.idA ∧
  activeImageState (handleDeleteImage Sample.idB Sample.twoImages) = Some Sample.imageA ∧
  currentImage (handleDeleteImage Sample.idB Sample.twoImages) = Some Sample.fileA ∧
  canUndo (handleDeleteImage Sample.idB Sample.twoImages) = false ∧
  canRedo (handleDeleteImage Sample.idB Sample.twoImages) = false.
Proof.
  assert (H1 : activeImageId Sample.twoImages ≠ Some Sample.idB) by discriminate.
  exact (conj H1 (delete_other_keeps_current Sample.idB Sample.twoImages H1)).
Defined.

(** X10 on the retouch of A: after a failure the same call goes out
    again; after a success the next request asks for a focus point. *)
Lemma retouch_retry_after_failure_witness :
  let call := mkGenerateCall Sample.fileA "make the sky blue" (mkHotspot 10 20) in
  handleGenerate_begin Sample.readyToRetouch = (Sample.retouchDispatched, Some call) ∧
  dataURLtoFile Sample.atob Sample.editedUrl
    ("edited-" +:+ pretty 1700000000500%N +:+ ".png") = Ok Sample.editedFile ∧
  (handleGenerate_begin
     (handleGenerate_settle Sample.atob 1700000000500
        (Rejected (ErrorObject "quota exceeded")) Sample.retouchDispatched)).2
    = Some call ∧
  handleGenerate_begin Sample.retouchSettledInPlace
    = (setError (Some "Silakan klik pada gambar untuk memilih area yang akan diedit.")
         Sample.retouchSettledInPlace, None).
Proof.
  intros call.
  assert (H1 : handleGenerate_begin Sample.readyToRetouch
               = (Sample.retouchDispatched, Some call)) by reflexivity.
  assert (H2 : dataURLtoFile Sample.atob Sample.editedUrl
                 ("edited-" +:+ pretty 1700000000500%N +:+ ".png")
               = Ok Sample.editedFile) by reflexivity.
  destruct (retouch_retry_after_failure Sample.atob 1700000000500 Sample.readyToRetouch
              Sample.retouchDispatched call (ErrorObject "quota exceeded")
              Sample.editedUrl Sample.editedFile H1) as [Hretry Hnext].
  exact (conj H1 (conj H2 (conj Hretry (Hnext H2)))).
Defined.

(** X11: the file of A uploaded twice in one millisecond. *)
Lemma upload_ids_differ_by_random_witness :
  file_name (upload_file Sample.uploadA) = file_name (upload_file Case.uploadAgain) ∧
  upload_now Sample.uploadA = upload_now Case.uploadAgain ∧
  (img_id (newImageOf Sample.uploadA) = img_id (newImageOf Case.uploadAgain) ↔
   upload_random Sample.uploadA = upload_random Case.uploadAgain) ∧
  img_id (newImageOf Sample.uploadA) ≠ img_id (newImageOf Case.uploadAgain).
Proof.
  assert (H1 : file_name (upload_file Sample.uploadA)
               = file_name (upload_file Case.uploadAgain)) by reflexivity.
  assert (H2 : upload_now Sample.uploadA = upload_now Case.uploadAgain) by reflexivity.
  pose proof (upload_ids_differ_by_random Sample.uploadA Case.uploadAgain H1 H2) as Hiff.
  refine (conj H1 (conj H2 (conj Hiff _))).
  intros Heq. apply Hiff in Heq. discriminate Heq.
Defined.

(** X4 on two uploaded images with the retouch tab open and A selected:
    ticking B moves the tab to "adjust", and unticking B gives back the
    selection but not the tab. *)
Example toggle_twice_keeps_moved_tab :
  let once := toggleAndRender Sample.idB Sample.twoImages in
  let twice := toggleAndRender Sample.idB once in
  activeTab Sample.twoImages = TabRetouch ∧
  activeTab once = TabAdjust ∧
  twice = setActiveTab TabAdjust Sample.twoImages ∧
  twice ≠ Sample.twoImages.
Proof.
  intros once twice.
  assert (H : twice = setActiveTab TabAdjust Sample.twoImages) by (vm_compute; reflexivity).
  split; [reflexivity|]. split; [vm_compute; reflexivity|]. split; [exact H|].
  rewrite H. intros Heq. apply (f_equal activeTab) in Heq. discriminate Heq.
Qed.

(** X12 on a PNG data URL whose MIME type is written in upper case:
    the file has the type in lower case. *)
Lemma dataURLtoFile_reads_service_url_witness :
  plainMime "IMAGE/PNG" ∧
  allChars notComma "ZWRpdGVk" = true ∧
  dataURLtoFile Sample.atob "data:IMAGE/PNG;base64,ZWRpdGVk" "edited.png"
    = Ok (mkFile "edited.png" "image/png" "ZWRpdGVk").
Proof.
  assert (H1 : plainMime "IMAGE/PNG") by (split; reflexivity).
  assert (H2 : allChars notComma "ZWRpdGVk" = true) by reflexivity.
  exact (conj H1 (conj H2
    (proj1 (dataURLtoFile_reads_service_url Sample.atob "IMAGE/PNG" "ZWRpdGVk" "edited.png"
              H1 H2)))).
Defined.

(** The type of the file and the MIME type of the URL differ in that
    case, and a MIME type with a character that is not printable ASCII
    leaves the file without type. *)
Example file_type_is_normalized :
  dataURLtoFile Sample.atob "data:IMAGE/PNG;base64,QQ==" "a.png"
    = Ok (mkFile "a.png" "image/png" "QQ==") ∧
  dataURLtoFile Sample.atob
      ("data:image/" +:+ String (ascii_of_nat 233) "" +:+ ";base64,QQ==") "a.png"
    = Ok (mkFile "a.png" "" "QQ==") ∧
  dataURLtoFile Sample.atob "data:image/png;base64,QQ==" "a.png"
    = Ok (mkFile "a.png" "image/png" "QQ==").
Proof. repeat split; vm_compute; reflexivity. Qed.

(** X13: a string without comma, and a data URL with a tail after a
    second comma. *)
Lemma dataURLtoFile_commas_witness :
  allChars notComma "image/png;base64" = true ∧
  dataURLtoFile Sample.atob "image/png;base64" "x.png"
    = Throw (ErrorObject "Invalid data URL") ∧
  allChars notComma "data:image/png;base64,QQ==" = false ∧
  dataURLtoFile Sample.atob "data:image/png;base64,QQ==,and more" "x.png"
    = dataURLtoFile Sample.atob "data:image/png;base64,QQ==" "x.png".
Proof.
  assert (H1 : allChars notComma "image/png;base64" = true) by reflexivity.
  assert (H2 : allChars notComma "data:image/png;base64,QQ==" = false) by reflexivity.
  exact (conj H1 (conj
    (proj1 (dataURLtoFile_commas Sample.atob "image/png;base64" "" "x.png") H1)
    (conj H2
       (proj2 (dataURLtoFile_commas Sample.atob "data:image/png;base64,QQ=="
                 "and more" "x.png") H2)))).
Defined.

(** X15: two different responses with the same image lead to the same
    URL, and are of the same kind. *)
Lemma handleApiResponse_kinds_witness :
  Gemini.handleApiResponse Case.imageResponse "mengedit"
    = Gemini.handleApiResponse Case.imageResponseWithText "menerapkan filter" ∧
  responseKind Case.imageResponse = WithImage ∧
  responseKind Case.imageResponseWithText = WithImage.
Proof.
  assert (H1 : Gemini.handleApiResponse Case.imageResponse "mengedit"
               = Gemini.handleApiResponse Case.imageResponseWithText "menerapkan filter")
    by reflexivity.
  pose proof (handleApiResponse_kinds Case.imageResponse Case.imageResponseWithText
                "mengedit" "menerapkan filter" H1) as Hkind.
  refine (conj H1 (conj eq_refl _)). rewrite <- Hkind. reflexivity.
Defined.

(** X16 on the response with a PNG. *)
Lemma service_url_round_trip_witness :
  isBlocked Case.imageResponse = false ∧
  imageBlob Case.imageResponse = Some (Gemini.mkBlob (Some "image/png") (Some "ZWRpdGVk")) ∧
  plainMime "image/png" ∧
  allChars notComma "ZWRpdGVk" = true ∧
  ∃ url,
    Gemini.handleApiResponse Case.imageResponse "mengedit" = Ok url ∧
    Gemini.fileToPart_parse url = Ok (Gemini.mkBlob (Some "image/png") (Some "ZWRpdGVk")) ∧
    dataURLtoFile Sample.atob url "edited.png"
      = Ok (mkFile "edited.png" "image/png" "ZWRpdGVk").
Proof.
  assert (H1 : isBlocked Case.imageResponse = false) by reflexivity.
  assert (H2 : imageBlob Case.imageResponse
               = Some (Gemini.mkBlob (Some "image/png") (Some "ZWRpdGVk"))) by reflexivity.
  assert (H3 : plainMime "image/png") by (split; reflexivity).
  assert (H4 : allChars notComma "ZWRpdGVk" = true) by reflexivity.
  destruct (service_url_round_trip Sample.atob Case.imageResponse "mengedit"
              "image/png" "ZWRpdGVk" "edited.png" H1 H2 H3 H4)
    as (url & Hurl & Hpart & Hfile & _).
  refine (conj H1 (conj H2 (conj H3 (conj H4 _)))).
  exists url. exact (conj Hurl (conj Hpart Hfile)).
Defined.

(** X17 after the sample run of events. *)
Lemma reachable_states_well_formed_witness :
  appReachable Sample.atob Case.afterRun ∧
  (∀ img, img ∈ images Case.afterRun →
     history img ≠ [] ∧
     0 ≤ historyIndex img ≤ Z.of_nat (length (history img)) - 1) ∧
  NoDup (img_id <$> images Case.afterRun) ∧
  (∀ img, img ∈ images Case.afterRun → img_id img ≠ "") ∧
  (∀ a, activeImageId Case.afterRun = Some a → a ∈ img_id <$> images Case.afterRun) ∧
  (∀ x, x ∈ selectedImageIds Case.afterRun → x ∈ img_id <$> images Case.afterRun).
Proof.
  exact (conj appReachable_afterRun
    (reachable_states_well_formed Sample.atob Case.afterRun appReachable_afterRun)).
Defined.

Example afterRun_histories :
  history <$> images Case.afterRun
    = [[Sample.fileA; Sample.fileC; Sample.filteredA]; [Sample.fileB]] ∧
  historyIndex <$> images Case.afterRun = [2; 0].
Proof. split; vm_compute; reflexivity. Qed.

(** X18 after the sample run of events: A is active and shown. *)
Lemma reachable_active_has_current_witness :
  appReachable Sample.atob Case.afterRun ∧
  activeImageId Case.afterRun = Some Sample.idA ∧
  currentImage Case.afterRun ≠ None ∧
  firstUnmet Case.afterRun ≠ Some ActiveImagePresent ∧
  match (handleBatchOperation_begin "filter" Case.afterRun).2 with
  | NoDispatch => True
  | SingleDispatch target => is_Some (callArgument target)
  | MultiDispatch targets => Forall (λ t, is_Some (callArgument t)) targets
  end.
Proof.
  assert (H1 : activeImageId Case.afterRun = Some Sample.idA) by (vm_compute; reflexivity).
  destruct (reachable_active_has_current Sample.atob Case.afterRun appReachable_afterRun)
    as (Hcur & Hfirst & Hargs).
  refine (conj appReachable_afterRun (conj H1 (conj _ (conj _ (Hargs "filter"))))).
  - intros Hnone. apply Hcur in Hnone. rewrite H1 in Hnone. discriminate Hnone.
  - intros Hnone. apply Hfirst in Hnone. rewrite H1 in Hnone. discriminate Hnone.
Defined.

(** X19 after the sample run: A has three entries and its cursor on the
    last. *)
Lemma undo_redo_step_witness :
  let entry := mkImageState Sample.idA "a.png" Sample.fileA
                 [Sample.fileA; Sample.fileC; Sample.filteredA] 2 in
  appReachable Sample.atob Case.afterRun ∧
  activeImageState Case.afterRun = Some entry ∧
  canUndo Case.afterRun = true ∧
  activeImageState (handleUndo Case.afterRun) = Some (withHistoryIndex 1 entry) ∧
  currentImage (handleUndo Case.afterRun) = Some Sample.fileC ∧
  is_Some (currentImage (handleUndo Case.afterRun)).
Proof.
  intros entry.
  assert (H1 : activeImageState Case.afterRun = Some entry) by (vm_compute; reflexivity).
  assert (H2 : canUndo Case.afterRun = true) by (vm_compute; reflexivity).
  destruct (undo_redo_step Sample.atob Case.afterRun entry appReachable_afterRun H1)
    as [Hundo _].
  exact (conj appReachable_afterRun (conj H1 (conj H2 (Hundo H2)))).
Defined.

(** X20: an upload into the initial state, and one after the sample run
    while A is active. *)
Lemma upload_keeps_or_shows_first_witness :
  appReachable Sample.atob initialState ∧
  freshUpload [Sample.uploadA; Sample.uploadB] initialState ∧
  activeImageId initialState = None ∧
  activeImageId Sample.twoImages = Some Sample.idA ∧
  currentImage Sample.twoImages = Some Sample.fileA.
Proof.
  assert (H1 : appReachable Sample.atob initialState) by apply appReachable_initial.
  assert (H2 : freshUpload [Sample.uploadA; Sample.uploadB] initialState).
  { unfold freshUpload. apply (bool_decide_unpack _). vm_compute. exact I. }
  destruct (upload_keeps_or_shows_first Sample.atob Sample.uploadA [Sample.uploadB]
              initialState H1 H2) as [_ Hfirst].
  exact (conj H1 (conj H2 (conj eq_refl (Hfirst eq_refl)))).
Defined.
